(** * DubBotBase: event translation, room-state tracking and command routing

    A shallow embedding of the translator (src/translator.js), the state
    tracker (src/state_tracker.js), the command router (main.js) and the
    outbound actions of the bot facade (src/dubtrack.js), followed by the
    properties established about them.

    Conventions of the embedding:
    - a JavaScript value is a [value]; numbers are the integer-valued ones
      (there is no NaN, so [===] on primitives is structural equality);
    - a string is a sequence of code units below 256;
    - an object is the list of its properties in insertion order, and a
      property read on an object that lacks the property gives [VUndefined];
    - [Date.now()] and [new Date()] are an explicit argument [now];
    - a handler that mutates the room state returns the new state, and a
      handler that can throw returns an [outcome] carrying the state reached
      when the exception left the handler. *)

From Stdlib Require Import ZArith List String Ascii Bool Lia PeanoNat.
Import ListNotations.
Local Open Scope string_scope.
Local Open Scope Z_scope.

(** ** JavaScript values *)

Set Warnings "-register-all".

Inductive value : Type :=
| VUndefined
| VNull
| VBool (b : bool)
| VNum (n : Z)
| VStr (s : string)
| VDate (t : value)                      (* new Date(t) *)
| VArr (elems : list value)
| VObj (props : list (string * value)).

Definition object := list (string * value).

Inductive error := TypeError | RangeError.

(** ToBoolean. *)
Definition truthy (v : value) : bool :=
  match v with
  | VUndefined | VNull => false
  | VBool b => b
  | VNum n => negb (n =? 0)
  | VStr s => negb (s =? "")%string
  | VDate _ | VArr _ | VObj _ => true
  end.

Definition is_primitive (v : value) : bool :=
  match v with
  | VUndefined | VNull | VBool _ | VNum _ | VStr _ => true
  | VDate _ | VArr _ | VObj _ => false
  end.

(** [a === b].  Two primitives are compared by type and content.  Objects
    are compared by identity, which the embedding does not track: operands
    that are objects compare unequal, as two distinct objects do. *)
Definition strict_equal (a b : value) : bool :=
  match a, b with
  | VUndefined, VUndefined => true
  | VNull, VNull => true
  | VBool x, VBool y => Bool.eqb x y
  | VNum x, VNum y => x =? y
  | VStr x, VStr y => (x =? y)%string
  | _, _ => false
  end.

(** [o.name] for an object [o]. *)
Fixpoint get (o : object) (name : string) : value :=
  match o with
  | [] => VUndefined
  | (k, v) :: rest => if (k =? name)%string then v else get rest name
  end.

(** [o.name = v]: overwrite in place, or append a new property. *)
Fixpoint set (o : object) (name : string) (v : value) : object :=
  match o with
  | [] => [(name, v)]
  | (k, w) :: rest =>
      if (k =? name)%string then (k, v) :: rest else (k, w) :: set rest name v
  end.

(** [v.name] for an arbitrary value: reading a property of [undefined] or
    [null] throws; a primitive has none of the properties used here. *)
Definition member (v : value) (name : string) : value + error :=
  match v with
  | VUndefined | VNull => inr TypeError
  | VObj props => inl (get props name)
  | _ => inl VUndefined
  end.

(** [Array.prototype.indexOf], parametric in the equality used. *)
Fixpoint indexOf {A : Type} (eqb : A -> A -> bool) (x : A) (l : list A) : Z :=
  match l with
  | [] => -1
  | y :: rest =>
      if eqb y x then 0
      else let k := indexOf eqb x rest in if k <? 0 then -1 else k + 1
  end.

(** [l.splice(k, 1)] for [0 <= k]: drop the element at index [k]. *)
Definition splice1 {A : Type} (k : Z) (l : list A) : list A :=
  firstn (Z.to_nat k) l ++ skipn (S (Z.to_nat k)) l.

(** ** Strings *)

(** The code units matched by [\s] and removed by [trim], below 256. *)
Definition is_space (c : ascii) : bool :=
  let n := nat_of_ascii c in
  ((9 <=? n) && (n <=? 13))%nat || (n =? 32)%nat || (n =? 160)%nat.

Fixpoint trim_left (s : string) : string :=
  match s with
  | EmptyString => EmptyString
  | String c rest => if is_space c then trim_left rest else s
  end.

Fixpoint trim_right (s : string) : string :=
  match s with
  | EmptyString => EmptyString
  | String c rest =>
      let rest' := trim_right rest in
      if is_space c && (rest' =? "")%string then EmptyString
      else String c rest'
  end.

Definition trim (s : string) : string := trim_right (trim_left s).

(** [s.split(/\s+/)]: [cur] is the piece being read, [in_gap] tells that the
    previous code unit belonged to a separator. *)
Fixpoint split_ws (cur : string) (in_gap : bool) (s : string) : list string :=
  match s with
  | EmptyString => [cur]
  | String c rest =>
      if is_space c then
        if in_gap then split_ws cur true rest
        else cur :: split_ws EmptyString true rest
      else split_ws (cur ++ String c EmptyString) false rest
  end.

Definition split_whitespace (s : string) : list string :=
  split_ws EmptyString false s.

(** [s.replace(c, "")] for a one-character pattern: the first occurrence. *)
Fixpoint remove_first_char (c : ascii) (s : string) : string :=
  match s with
  | EmptyString => EmptyString
  | String d rest =>
      if Ascii.eqb d c then rest else String d (remove_first_char c rest)
  end.

(** [s.substring(n)]. *)
Fixpoint substring_from (n : nat) (s : string) : string :=
  match n, s with
  | O, _ => s
  | S _, EmptyString => EmptyString
  | S m, String _ rest => substring_from m rest
  end.

(** [/p/.test(s)] for a pattern [p] without metacharacters: [p] occurs
    somewhere in [s]. *)
Fixpoint occurs_in (p s : string) : bool :=
  prefix p s ||
  match s with
  | EmptyString => false
  | String _ rest => occurs_in p rest
  end.

Definition toLowerCase_char (c : ascii) : ascii :=
  let n := nat_of_ascii c in
  if ((65 <=? n) && (n <=? 90))%nat
     || ((192 <=? n) && (n <=? 222) && negb (n =? 215))%nat
  then ascii_of_nat (n + 32) else c.

Fixpoint toLowerCase (s : string) : string :=
  match s with
  | EmptyString => EmptyString
  | String c rest => String (toLowerCase_char c) (toLowerCase rest)
  end.

(** ** Types (src/types.js) *)

Module Types.

Module ChatType.
Definition COMMAND := VStr "command".
Definition EMOTE := VStr "emote".
Definition MESSAGE := VStr "message".
End ChatType.

Module Event.
Definition ADVANCE := "room_playlist-update".
Definition CHAT := "chat-message".
Definition CHAT_DELETE := "delete-chat-message".
Definition GRAB := "room_playlist-queue-update-grabs".
Definition ROOM_PLAYLIST_QUEUE_UPDATE := "room_playlist-queue-update-dub".
Definition USER_JOIN := "user-join".
Definition USER_LEAVE := "user-leave".
Definition VOTE := "room_playlist-dub".
End Event.

Definition role (name : string) (level : Z) : value :=
  VObj [("name", VStr name); ("level", VNum level)].

Module UserRole.
Definition NONE := role "none" 0.
Definition DJ := role "dj" 1.
Definition RESIDENT_DJ := role "residentDj" 2.
Definition VIP := role "vip" 2.
Definition MOD := role "mod" 3.
Definition COOWNER := role "co-owner" 4.
Definition OWNER := role "owner" 5.
(** The enumeration has no MANAGER member: [Types.UserRole.MANAGER]
    evaluates to [undefined]. *)
Definition MANAGER := VUndefined.
End UserRole.

End Types.

(** ** Translator (src/translator.js) *)

Module Translator.

(** The payloads of the vendor client, with the fields the translator
    reads.  A field that may be missing altogether is an [option]. *)
Record DubUser := {
  du_id : value;
  du_username : value;
  du_role : value;
  du_dubs : value;
  du_created : value;
  du_playedCount : value;
  du_grab : value;
  du_vote : value
}.

Record DubRawUser := {
  raw_id : value;                (* event.raw.user._id *)
  raw_username : value;
  raw_roleid : value
}.

Record DubChatEvent := {
  chat_id : value;
  chat_message : string;
  chat_type : value;
  chat_user : option DubUser;
  chat_raw_user : option DubRawUser
}.

Record DubChatDeleteEvent := {
  del_id : value;
  del_user : option DubUser
}.

Record DubVoteEvent := {
  vote_dubtype : value;
  vote_user : option DubUser
}.

Record DubMedia := {
  media_fkid : value;
  media_songLength : value;
  media_name : value
}.

Definition translateDateTimestamp (now : Z) (timestamp : value) : value :=
  if negb (truthy timestamp) then VNum now else VDate timestamp.

Definition translateRole (role : value) : value :=
  if strict_equal role (VStr "5615fa9ae596154a5c000000") then Types.UserRole.COOWNER
  else if strict_equal role (VStr "5615fd84e596150061000003") then Types.UserRole.MANAGER
  else if strict_equal role (VStr "52d1ce33c38a06510c000001") then Types.UserRole.MOD
  else if strict_equal role (VStr "5615fe1ee596154fc2000001") then Types.UserRole.VIP
  else if strict_equal role (VStr "5615feb8e596154fc2000002") then Types.UserRole.RESIDENT_DJ
  else if strict_equal role (VStr "564435423f6ba174d2000001") then Types.UserRole.DJ
  else Types.UserRole.NONE.

Definition translateUserObject (now : Z) (dubapiDj : option DubUser) : value :=
  match dubapiDj with
  | None => VNull
  | Some u =>
      VObj [("dubs", du_dubs u);
            ("joinDate", translateDateTimestamp now (du_created u));
            ("numberOfSongsPlayed", du_playedCount u);
            ("role", translateRole (du_role u));
            ("userID", du_id u);
            ("username", du_username u)]
  end.

(** Returns the chat type and the event, whose [message] the emote branch
    overwrites. *)
Definition translateChatType (event : DubChatEvent) : value * DubChatEvent :=
  match chat_message event with
  | String "!" _ => (Types.ChatType.COMMAND, event)
  | _ =>
      if (4 <? Z.of_nat (String.length (chat_message event)))
         && occurs_in "/me " (chat_message event)
      then (Types.ChatType.EMOTE,
            {| chat_id := chat_id event;
               chat_message := substring_from 4 (chat_message event);
               chat_type := chat_type event;
               chat_user := chat_user event;
               chat_raw_user := chat_raw_user event |})
      else if strict_equal (chat_type event) (VStr "chat-message")
      then (Types.ChatType.MESSAGE, event)
      else (Types.ChatType.MESSAGE, event)      (* after LOG.error *)
  end.

(** The properties of the object literal are evaluated in source order:
    [message] is read before [translateChatType] runs. *)
Definition translateChatEvent (event : DubChatEvent)
  : (object * DubChatEvent) + error :=
  let chatID := chat_id event in
  let message := VStr (chat_message event) in
  let '(type, event) := translateChatType event in
  let sender :=
    match chat_user event, chat_raw_user event with
    | Some u, _ => inl (du_id u, du_username u, du_role u)
    | None, Some r => inl (raw_id r, raw_username r, raw_roleid r)
    | None, None => inr TypeError
    end in
  match sender with
  | inr e => inr e
  | inl (userID, username, role) =>
      let obj := [("chatID", chatID);
                  ("message", message);
                  ("type", type);
                  ("userID", userID);
                  ("username", username);
                  ("userRole", translateRole role)] in
      if strict_equal type Types.ChatType.COMMAND then
        let words := split_whitespace (trim (chat_message event)) in
        let obj := set obj "command"
                     (VStr (remove_first_char "!" (hd EmptyString words))) in
        let obj := set obj "args" (VArr (map VStr (tl words))) in
        inl (obj, event)
      else inl (obj, event)
  end.

Definition translateChatDeleteEvent (event : DubChatDeleteEvent)
  : object + error :=
  match del_user event with
  | None => inr TypeError
  | Some u =>
      inl [("chatID", del_id event);
           ("deleterID", du_id u);
           ("deleterUsername", du_username u)]
  end.

Definition translateGrabEvent (event : value) : object :=
  [("userID", event)].

Definition translateUserJoinEvent (now : Z) (user : option DubUser) : value :=
  translateUserObject now user.

Definition translateUserLeaveEvent (now : Z) (user : option DubUser) : value :=
  translateUserObject now user.

(** [None] is the [undefined] returned for an unknown dubtype. *)
Definition translateVoteEvent (now : Z) (event : DubVoteEvent) : option object :=
  if negb (strict_equal (vote_dubtype event) (VStr "updub"))
     && negb (strict_equal (vote_dubtype event) (VStr "downdub"))
  then None
  else Some [("user", translateUserObject now (vote_user event));
             ("vote", if strict_equal (vote_dubtype event) (VStr "updub")
                      then VNum 1 else VNum (-1))].

Section Media.

(** [a / b] is a floating-point division; it is left abstract. *)
Variable divide : value -> value -> value.

Definition translateMediaObject (media : option DubMedia) : value :=
  match media with
  | None => VNull
  | Some m =>
      VObj [("contentID", media_fkid m);
            ("durationInSeconds", divide (media_songLength m) (VNum 1000));
            ("fullTitle", media_name m)]
  end.

End Media.

End Translator.

(** ** State tracker (src/state_tracker.js) *)

Module StateTracker.

Record Votes := {
  grabs : list value;            (* user IDs *)
  mehs : list value;
  woots : list value
}.

Record Play := {
  media : value;
  startDate : value;
  user : value;
  votes : Votes
}.

Record ChatObj := {
  chatID : value;
  message : value;
  timestamp : value;
  type : value;
  userID : value;
  username : value;
  wasUserMuted : value;
  isDeleted : value;             (* undefined until the message is deleted *)
  deletedByUserID : value;
  deletionTime : value
}.

Record RoomState := {
  chatHistory : list ChatObj;
  mediaQueue : list value;
  playHistory : list Play;
  usersInRoom : list object;
  waitList : value
}.

(** globalObject.config.DubBotBase *)
Record Config := {
  areCommandsCaseSensitive : bool;
  numberOfChatEventsToStore : Z;
  numberOfPlayedSongsToStore : Z
}.

(** How a handler ends: normally, or by an exception that leaves the room
    state as the handler had made it so far. *)
Inductive outcome :=
| Normal (s : RoomState)
| Raised (e : error) (s : RoomState).

Definition state_of (o : outcome) : RoomState :=
  match o with Normal s | Raised _ s => s end.

Definition with_chatHistory (h : list ChatObj) (s : RoomState) : RoomState :=
  {| chatHistory := h; mediaQueue := mediaQueue s;
     playHistory := playHistory s; usersInRoom := usersInRoom s;
     waitList := waitList s |}.

Definition with_playHistory (h : list Play) (s : RoomState) : RoomState :=
  {| chatHistory := chatHistory s; mediaQueue := mediaQueue s;
     playHistory := h; usersInRoom := usersInRoom s;
     waitList := waitList s |}.

Definition with_usersInRoom (us : list object) (s : RoomState) : RoomState :=
  {| chatHistory := chatHistory s; mediaQueue := mediaQueue s;
     playHistory := playHistory s; usersInRoom := us;
     waitList := waitList s |}.

Definition with_waitList (w : value) (s : RoomState) : RoomState :=
  {| chatHistory := chatHistory s; mediaQueue := mediaQueue s;
     playHistory := playHistory s; usersInRoom := usersInRoom s;
     waitList := w |}.

Definition with_votes (v : Votes) (p : Play) : Play :=
  {| media := media p; startDate := startDate p; user := user p; votes := v |}.

(** [array.length = n], reached only when the array is longer than [n]: the
    array is cut to its first [n] elements; a negative length is refused. *)
Definition set_length {A : Type} (l : list A) (n : Z) : list A + error :=
  if n <? 0 then inr RangeError else inl (firstn (Z.to_nat n) l).

Definition empty_votes : Votes := {| grabs := []; mehs := []; woots := [] |}.

(** The play object that [onAdvance] builds from the event. *)
Definition new_play (event : object) : Play :=
  {| media := get event "media";
     startDate := get event "startDate";
     user := get event "incomingDJ";
     votes := empty_votes |}.

Definition onAdvance (cfg : Config) (event : object) (s : RoomState) : outcome :=
  let maxPlayHistoryLength := numberOfPlayedSongsToStore cfg in
  let play := new_play event in
  let s := with_playHistory (play :: playHistory s) s in
  if Z.of_nat (List.length (playHistory s)) >? maxPlayHistoryLength then
    match set_length (playHistory s) maxPlayHistoryLength with
    | inl h => Normal (with_playHistory h s)
    | inr e => Raised e s
    end
  else Normal s.

Definition onChat (cfg : Config) (now : Z) (event : object) (s : RoomState)
  : outcome :=
  let maxChatHistoryLength := numberOfChatEventsToStore cfg in
  let chatObj :=
    {| chatID := get event "chatID";
       message := get event "message";
       timestamp := VNum now;
       type := get event "type";
       userID := get event "userID";
       username := get event "username";
       wasUserMuted := get event "isMuted";
       isDeleted := VUndefined;
       deletedByUserID := VUndefined;
       deletionTime := VUndefined |} in
  let s := with_chatHistory (chatObj :: chatHistory s) s in
  if Z.of_nat (List.length (chatHistory s)) >? maxChatHistoryLength then
    match set_length (chatHistory s) maxChatHistoryLength with
    | inl h => Normal (with_chatHistory h s)
    | inr e => Raised e s
    end
  else Normal s.

(** The three assignments that mark a chat object as deleted. *)
Definition mark_deleted (currentTime : Z) (event : object) (chatObj : ChatObj)
  : ChatObj :=
  {| chatID := chatID chatObj;
     message := message chatObj;
     timestamp := timestamp chatObj;
     type := type chatObj;
     userID := userID chatObj;
     username := username chatObj;
     wasUserMuted := wasUserMuted chatObj;
     isDeleted := VBool true;
     deletedByUserID := get event "modUserID";
     deletionTime := VNum currentTime |}.

(** The second loop of [onChatDelete], run on the part of the history after
    [deletedMessageIndex]: returns that part as mutated, and the chat
    objects pushed on [deletedMessages]. *)
Fixpoint cascade (currentTime : Z) (event : object)
    (deletedMessageUserID : value) (l : list ChatObj)
  : list ChatObj * list ChatObj :=
  match l with
  | [] => ([], [])
  | chatObj :: rest =>
      if strict_equal (userID chatObj) deletedMessageUserID
         && negb (truthy (isDeleted chatObj))
      then
        let chatObj' := mark_deleted currentTime event chatObj in
        let '(rest', deleted) :=
          cascade currentTime event deletedMessageUserID rest in
        (chatObj' :: rest', chatObj' :: deleted)
      else (l, [])                                        (* break *)
  end.

(** The first loop of [onChatDelete], followed by the second one at the
    index where it breaks. *)
Fixpoint delete_from (currentTime : Z) (event : object) (l : list ChatObj)
  : list ChatObj * list ChatObj :=
  match l with
  | [] => ([], [])
  | chatObj :: rest =>
      if strict_equal (chatID chatObj) (get event "chatID") then
        let chatObj' := mark_deleted currentTime event chatObj in
        let '(rest', deleted) :=
          cascade currentTime event (userID chatObj') rest in
        (chatObj' :: rest', chatObj' :: deleted)
      else
        let '(rest', deleted) := delete_from currentTime event rest in
        (chatObj :: rest', deleted)
  end.

(** Returns the new room state and the list attached to the event as
    [event.deletedMessages]. *)
Definition onChatDelete (now : Z) (event : object) (s : RoomState)
  : RoomState * list ChatObj :=
  let currentTime := now in
  let '(history, deletedMessages) :=
    delete_from currentTime event (chatHistory s) in
  (with_chatHistory history s, deletedMessages).

Definition onGrab (event : object) (s : RoomState) : outcome :=
  match playHistory s with
  | [] => Raised TypeError s              (* currentSong is undefined *)
  | currentSong :: older =>
      let v := votes currentSong in
      if indexOf strict_equal (get event "userID") (grabs v) <? 0 then
        let v := {| grabs := grabs v ++ [get event "userID"];
                    mehs := mehs v; woots := woots v |} in
        Normal (with_playHistory (with_votes v currentSong :: older) s)
      else Normal s
  end.

Definition onRoomPlaylistQueueUpdate (event : object) (s : RoomState)
  : RoomState :=
  with_waitList (get event "queue") s.

Fixpoint _findUserIndex (users : list object) (userID : value) : Z :=
  match users with
  | [] => -1
  | user :: rest =>
      if strict_equal (get user "userID") userID then 0
      else let k := _findUserIndex rest userID in
           if k <? 0 then -1 else k + 1
  end.

Definition _findUser (users : list object) (userID : value) : option object :=
  let index := _findUserIndex users userID in
  if 0 <=? index then nth_error users (Z.to_nat index) else None.

Definition _removeUser (users : list object) (userID : value) : list object :=
  let index := _findUserIndex users userID in
  if 0 <=? index then splice1 index users else users.

Definition onUserLeave (event : object) (s : RoomState) : RoomState :=
  with_usersInRoom (_removeUser (usersInRoom s) (get event "userID")) s.

Definition onUserJoin (event : object) (s : RoomState) : RoomState :=
  match _findUser (usersInRoom s) (get event "userID") with
  | Some _ => s                                          (* after LOG.warn *)
  | None => with_usersInRoom (usersInRoom s ++ [event]) s
  end.

Definition onVote (event : object) (s : RoomState) : outcome :=
  match playHistory s with
  | [] => Raised TypeError s              (* currentSong is undefined *)
  | currentSong :: older =>
      let userID := get event "userID" in
      let v := votes currentSong in
      let woots1 :=
        if 0 <=? indexOf strict_equal userID (woots v)
        then splice1 (indexOf strict_equal userID (woots v)) (woots v)
        else woots v in
      let mehs1 :=
        if 0 <=? indexOf strict_equal userID (mehs v)
        then splice1 (indexOf strict_equal userID (mehs v)) (mehs v)
        else mehs v in
      let v :=
        if strict_equal (get event "vote") (VNum 1) then
          {| grabs := grabs v; mehs := mehs1; woots := woots1 ++ [userID] |}
        else if strict_equal (get event "vote") (VNum (-1)) then
          {| grabs := grabs v; mehs := mehs1 ++ [userID]; woots := woots1 |}
        else {| grabs := grabs v; mehs := mehs1; woots := woots1 |} in
      Normal (with_playHistory (with_votes v currentSong :: older) s)
  end.

Section Init.

Variable divide : value -> value -> value.

(** The second loop of [populateUsers]: the votes of the current play are
    seeded from the flags of the users in the room. *)
Fixpoint seed_votes (users : list Translator.DubUser) (v : Votes) : Votes :=
  match users with
  | [] => v
  | user :: rest =>
      let v :=
        if truthy (Translator.du_grab user)
        then {| grabs := grabs v ++ [Translator.du_id user];
                mehs := mehs v; woots := woots v |}
        else v in
      let v :=
        if strict_equal (Translator.du_vote user) (VNum 1)
        then {| grabs := grabs v; mehs := mehs v;
                woots := woots v ++ [Translator.du_id user] |}
        else if strict_equal (Translator.du_vote user) (VNum (-1))
        then {| grabs := grabs v;
                mehs := mehs v ++ [Translator.du_id user];
                woots := woots v |}
        else v in
      seed_votes rest v
  end.

(** The first loop of [populateUsers]. *)
Fixpoint push_users (now : Z) (users : list Translator.DubUser)
    (usersInRoom : list object) : list object :=
  match users with
  | [] => usersInRoom
  | user :: rest =>
      match Translator.translateUserObject now (Some user) with
      | VObj o => push_users now rest (usersInRoom ++ [o])
      | _ => push_users now rest usersInRoom
      end
  end.

(** [getMedia], [getDJ], [getUsers] and [getTimeElapsed] of the vendor
    client are the arguments [media], [dj], [users] and [elapsedTime]. *)
Definition populateUsers (now : Z)
    (media : option Translator.DubMedia) (dj : option Translator.DubUser)
    (users : list Translator.DubUser) (elapsedTime : Z) (s : RoomState)
  : RoomState :=
  let currentSong := Translator.translateMediaObject divide media in
  let currentDj := Translator.translateUserObject now dj in
  let s := with_usersInRoom (push_users now users (usersInRoom s)) s in
  if truthy currentSong && truthy currentDj then
    let startDate := now - elapsedTime * 1000 in
    let currentPlay :=
      {| media := currentSong;
         startDate := VNum startDate;
         user := currentDj;
         votes := seed_votes users empty_votes |} in
    with_playHistory (currentPlay :: playHistory s) s
  else s.

Definition init (now : Z)
    (media : option Translator.DubMedia) (dj : option Translator.DubUser)
    (users : list Translator.DubUser) (elapsedTime : Z) : RoomState :=
  let roomState :=
    {| chatHistory := []; mediaQueue := []; playHistory := [];
       usersInRoom := []; waitList := VUndefined |} in
  populateUsers now media dj users elapsedTime roomState.

End Init.

(** *** Delivery of translated events to the tracker *)

(** The translated events the tracker subscribes to. *)
Inductive tracked_event :=
| ADVANCE (event : object)
| CHAT (event : object)
| CHAT_DELETE (event : object)
| GRAB (event : object)
| ROOM_PLAYLIST_QUEUE_UPDATE (event : object)
| USER_LEAVE (event : object)
| USER_JOIN (event : object)
| VOTE (event : object).

Definition deliver (cfg : Config) (now : Z) (e : tracked_event) (s : RoomState)
  : outcome :=
  match e with
  | ADVANCE event => onAdvance cfg event s
  | CHAT event => onChat cfg now event s
  | CHAT_DELETE event => Normal (fst (onChatDelete now event s))
  | GRAB event => onGrab event s
  | ROOM_PLAYLIST_QUEUE_UPDATE event => Normal (onRoomPlaylistQueueUpdate event s)
  | USER_LEAVE event => Normal (onUserLeave event s)
  | USER_JOIN event => Normal (onUserJoin event s)
  | VOTE event => onVote event s
  end.

(** Events delivered one after the other; an exception ends the run. *)
Fixpoint deliver_all (cfg : Config) (now : Z) (es : list tracked_event)
    (s : RoomState) : outcome :=
  match es with
  | [] => Normal s
  | e :: rest =>
      match deliver cfg now e s with
      | Normal s' => deliver_all cfg now rest s'
      | Raised err s' => Raised err s'
      end
  end.

(** The event dispatcher of the bot ([_createEventDispatcher]) in front of
    the tracker's listener: translate, drop a falsy result, set
    [eventName], call the listener. *)
Definition dispatch_chat_delete (now : Z)
    (event : Translator.DubChatDeleteEvent) (s : RoomState)
  : (RoomState * list ChatObj) + error :=
  match Translator.translateChatDeleteEvent event with
  | inr e => inr e
  | inl internalObject =>
      let internalObject :=
        set internalObject "eventName" (VStr Types.Event.CHAT_DELETE) in
      inl (onChatDelete now internalObject s)
  end.

Definition dispatch_vote (now : Z) (event : Translator.DubVoteEvent)
    (s : RoomState) : outcome :=
  match Translator.translateVoteEvent now event with
  | None => Normal s
  | Some internalObject =>
      let internalObject :=
        set internalObject "eventName" (VStr Types.Event.VOTE) in
      onVote internalObject s
  end.

Definition dispatch_grab (event : value) (s : RoomState) : outcome :=
  let internalObject :=
    set (Translator.translateGrabEvent event) "eventName"
        (VStr Types.Event.GRAB) in
  onGrab internalObject s.

Definition dispatch_chat (cfg : Config) (now : Z)
    (event : Translator.DubChatEvent) (s : RoomState) : outcome :=
  match Translator.translateChatEvent event with
  | inr e => Raised e s
  | inl (internalObject, _) =>
      let internalObject :=
        set internalObject "eventName" (VStr Types.Event.CHAT) in
      onChat cfg now internalObject s
  end.

End StateTracker.

(** ** A trace monad for code whose effects are calls to external functions

    A computation logs the external calls it makes and ends with a result
    or with an exception; nothing is logged after an exception. *)

Module Trace.

Definition t (E A : Type) : Type := (list E * (A + error))%type.

Definition ret {E A : Type} (a : A) : t E A := ([], inl a).

Definition throw {E A : Type} (e : error) : t E A := ([], inr e).

Definition emit {E : Type} (x : E) : t E unit := ([x], inl tt).

Definition bind {E A B : Type} (m : t E A) (k : A -> t E B) : t E B :=
  match m with
  | (log, inl a) => let '(log', r) := k a in ((log ++ log')%list, r)
  | (log, inr e) => (log, inr e)
  end.

Definition log {E A : Type} (m : t E A) : list E := fst m.

Definition raised {E A : Type} (m : t E A) : option error :=
  match snd m with inl _ => None | inr e => Some e end.

End Trace.

Notation "x <- m ;; k" := (Trace.bind m (fun x => k))
  (at level 61, m at next level, right associativity).
Notation "m ;;; k" := (Trace.bind m (fun _ => k))
  (at level 61, right associativity).

(** ** Command router (main.js) *)

Module Router.

(** A registered command module.  Its functions are external: the router
    only decides which of them it calls. *)
Record Command := {
  triggers : list value;
  minimumRole : value;                       (* undefined when not declared *)
  insufficientPermissionsHandler : bool      (* is one exported? *)
}.

(** The calls the router makes, by the index of the command in [commands]. *)
Inductive invocation :=
| handler (i : nat)
| insufficientPermissions (i : nat).

(** ToNumber on the values taken by a role level; [None] is NaN.  Strings
    and objects are no role level and are not converted. *)
Definition to_number (v : value) : option Z :=
  match v with
  | VNum n => Some n
  | VNull => Some 0
  | VBool b => Some (if b then 1 else 0)
  | _ => None
  end.

(** [a < b] *)
Definition less_than (a b : value) : bool :=
  match to_number a, to_number b with
  | Some x, Some y => x <? y
  | _, _ => false
  end.

Definition lift {A : Type} (r : A + error) : Trace.t invocation A :=
  match r with
  | inl a => Trace.ret a
  | inr e => Trace.throw e
  end.

(** [command.triggers.indexOf(commandName) >= 0] *)
Definition triggered (commandName : value) (command : Command) : bool :=
  0 <=? indexOf strict_equal commandName (triggers command).

(** One iteration of the [for] loop, on [commands[i]]. *)
Definition loop_body (commandName : value) (chatEvent : object) (i : nat)
    (command : Command) : Trace.t invocation unit :=
  if triggered commandName command then
    if truthy (minimumRole command) then
      userLevel <- lift (member (get chatEvent "userRole") "level") ;;
      minimumLevel <- lift (member (minimumRole command) "level") ;;
      if less_than userLevel minimumLevel then
        if insufficientPermissionsHandler command
        then Trace.emit (insufficientPermissions i)
        else Trace.ret tt                                     (* continue *)
      else Trace.emit (handler i)
    else Trace.emit (handler i)
  else Trace.ret tt.

(** The [for] loop, from index [i] on. *)
Fixpoint run_commands (commandName : value) (chatEvent : object) (i : nat)
    (commands : list Command) : Trace.t invocation unit :=
  match commands with
  | [] => Trace.ret tt
  | command :: rest =>
      loop_body commandName chatEvent i command ;;;
      run_commands commandName chatEvent (S i) rest
  end.

(** [commandName.toLowerCase()]: only a string has the method. *)
Definition lower (commandName : value) : value + error :=
  match commandName with
  | VStr s => inl (VStr (toLowerCase s))
  | _ => inr TypeError
  end.

(** The function returned by [_createCommandHandler(commands)]. *)
Definition commandHandler (commands : list Command)
    (cfg : StateTracker.Config) (chatEvent : object)
  : Trace.t invocation unit :=
  if negb (truthy (get chatEvent "command")) then Trace.ret tt
  else
    let commandName := get chatEvent "command" in
    commandName <-
      (if negb (StateTracker.areCommandsCaseSensitive cfg)
       then lift (lower commandName) else Trace.ret commandName) ;;
    run_commands commandName chatEvent 0 commands.

End Router.

(** ** Outbound actions of the bot (src/dubtrack.js) *)

Module Bot.

(** The requests made to the vendor client. *)
Inductive request :=
| moderateForceSkip
| grab
| joinBooth
| leaveBooth
| meh
| woot
| moderateMoveDJ (userID newPosition : value).

(** What an action does to the outside: a request to the vendor client, or
    a call of the caller's completion callback with its Boolean argument. *)
Inductive effect :=
| Requested (r : request)
| Called (callback : string) (result : bool).

(** A callback argument: [None] when omitted, else the function, by name. *)
Definition callback := option string.

(** [callback(result)]; calling [undefined] throws. *)
Definition call (cb : callback) (result : bool) : Trace.t effect unit :=
  match cb with
  | Some f => Trace.emit (Called f result)
  | None => Trace.throw TypeError
  end.

(** The truthiness of the callback argument. *)
Definition present (cb : callback) : bool :=
  match cb with Some _ => true | None => false end.

(** [if (callback) { callback(result); }] *)
Definition call_if_present (cb : callback) (result : bool)
  : Trace.t effect unit :=
  if present cb then call cb result else Trace.ret tt.

(** The vendor client: a request is made with a completion function
    [completion]; when the client queues the request it returns a truthy
    value and runs [completion] once the request is done; otherwise it
    returns a falsy value and never runs it.  [queues r] tells which. *)
Definition transport (queues : request -> bool) (r : request)
    (completion : Trace.t effect unit)
    (after : bool -> Trace.t effect unit) : Trace.t effect unit :=
  Trace.emit (Requested r) ;;;
  after (queues r) ;;;
  if queues r then completion else Trace.ret tt.

Section Actions.

Variable queues : request -> bool.

(** The six actions that share one body. *)
Definition simple_action (r : request) (cb : callback) : Trace.t effect unit :=
  transport queues r
    (call_if_present cb true)
    (fun wasQueued =>
       if negb wasQueued && present cb
       then call cb false else Trace.ret tt).

Definition forceSkip := simple_action moderateForceSkip.
Definition grabSong := simple_action grab.
Definition joinWaitList := simple_action joinBooth.
Definition leaveWaitList := simple_action leaveBooth.
Definition mehSong := simple_action meh.
Definition wootSong := simple_action woot.

Definition moveDjInWaitList (userID newPosition : value) (cb : callback)
  : Trace.t effect unit :=
  transport queues (moderateMoveDJ userID newPosition)
    (call cb true)
    (fun wasRequestQueued =>
       if negb wasRequestQueued && present cb
       then call cb false else Trace.ret tt).

End Actions.

End Bot.

(** * Vocabulary of the properties *)

Import Translator StateTracker Router.

(** The index at which a play of the old history is found after an event:
    an Advance event puts one play in front of it. *)
Definition shift (e : tracked_event) : nat :=
  match e with ADVANCE _ => 1%nat | _ => 0%nat end.

(** What an event may do to a play: keep its identity and keep every
    grabber. *)
Definition keeps_grabs (p p' : Play) : Prop :=
  media p' = media p /\ startDate p' = startDate p /\ user p' = user p /\
  incl (grabs (votes p)) (grabs (votes p')).

(** What the handler writes on every message it marks. *)
Definition marked_by (currentTime : Z) (event : object) (c : ChatObj) : Prop :=
  isDeleted c = VBool true /\
  deletedByUserID c = get event "modUserID" /\
  deletionTime c = VNum currentTime.

(** The removal step of [onVote] on one of the two lists. *)
Definition without (userID : value) (l : list value) : list value :=
  if 0 <=? indexOf strict_equal userID l
  then splice1 (indexOf strict_equal userID l) l else l.

Definition invocation_eq_dec (a b : invocation) : {a = b} + {a <> b}.
Proof. decide equality; apply Nat.eq_dec. Defined.

(** How often the router has called a function. *)
Definition calls (inv : invocation) (run : Trace.t invocation unit) : nat :=
  count_occ invocation_eq_dec (Trace.log run) inv.

Definition index_of (inv : invocation) : nat :=
  match inv with handler i | insufficientPermissions i => i end.

(** The name compared with the triggers, for a command token [token]. *)
Definition commandName_for (cfg : Config) (token : string) : value :=
  if areCommandsCaseSensitive cfg then VStr token else VStr (toLowerCase token).

(** ** A sample room *)

Module Sample.

Definition dub_user (id name : string) : DubUser :=
  {| du_id := VStr id; du_username := VStr name; du_role := VUndefined;
     du_dubs := VNum 0; du_created := VNum 1450000000000;
     du_playedCount := VNum 0; du_grab := VUndefined; du_vote := VUndefined |}.

Definition userA := dub_user "idA" "userA".
Definition userB := dub_user "idB" "userB".
Definition moderator := dub_user "mod7" "themod".

Definition cfg : Config :=
  {| areCommandsCaseSensitive := false;
     numberOfChatEventsToStore := 50;
     numberOfPlayedSongsToStore := 2 |}.

Definition chat (id : string) (from : DubUser) (text : string) : DubChatEvent :=
  {| chat_id := VStr id; chat_message := text;
     chat_type := VStr "chat-message";
     chat_user := Some from; chat_raw_user := None |}.

(** The room after initialisation with nothing playing. *)
Definition empty_room : RoomState :=
  init (fun a _ => a) 100 None None [userA; userB; moderator] 0.

Definition advance (dj contentID : string) : object :=
  [("incomingDJ", VStr dj); ("media", VStr contentID); ("startDate", VNum 100)].

(** The room once a first track has started. *)
Definition playing_room : RoomState :=
  state_of (onAdvance cfg (advance "idA" "track1") empty_room).

Definition then_chat (now : Z) (event : DubChatEvent) (o : outcome) : outcome :=
  match o with
  | Normal s => dispatch_chat cfg now event s
  | Raised e s => Raised e s
  end.

(** M1 and M2 by userA, M3 by userB, M4 by userA, in that order. *)
Definition four_messages : outcome :=
  then_chat 104 (chat "M4" userA "four")
    (then_chat 103 (chat "M3" userB "three")
       (then_chat 102 (chat "M2" userA "two")
          (then_chat 101 (chat "M1" userA "one") (Normal playing_room)))).

Definition delete (id : string) : DubChatDeleteEvent :=
  {| del_id := VStr id; del_user := Some moderator |}.

Definition vote (dubtype : string) (from : DubUser) : DubVoteEvent :=
  {| vote_dubtype := VStr dubtype; vote_user := Some from |}.

Definition grab_by (id : string) : object :=
  set (translateGrabEvent (VStr id)) "eventName" (VStr Types.Event.GRAB).

(** The room once userA has grabbed the first track. *)
Definition grabbed_room : RoomState :=
  state_of (onGrab (grab_by "idA") playing_room).

Definition grabbed_play : Play :=
  with_votes {| grabs := [VStr "idA"]; mehs := []; woots := [] |}
             (new_play (advance "idA" "track1")).

(** A VIP (level 2) and a moderator (level 3), by their vendor role. *)
Definition vip : DubUser :=
  {| du_id := VStr "idV"; du_username := VStr "vip";
     du_role := VStr "5615fe1ee596154fc2000001";
     du_dubs := VNum 0; du_created := VNum 1450000000000;
     du_playedCount := VNum 0; du_grab := VUndefined; du_vote := VUndefined |}.

Definition mod_user : DubUser :=
  {| du_id := VStr "idM"; du_username := VStr "mod";
     du_role := VStr "52d1ce33c38a06510c000001";
     du_dubs := VNum 0; du_created := VNum 1450000000000;
     du_playedCount := VNum 0; du_grab := VUndefined; du_vote := VUndefined |}.

(** The chat event as the dispatcher hands it to the listeners. *)
Definition translated (event : DubChatEvent) : object :=
  match translateChatEvent event with
  | inl (internalObject, _) =>
      set internalObject "eventName" (VStr Types.Event.CHAT)
  | inr _ => []
  end.

Definition skip_for_mods : Router.Command :=
  {| Router.triggers := [VStr "skip"];
     Router.minimumRole := Types.UserRole.MOD;
     Router.insufficientPermissionsHandler := true |}.

Definition skip_for_all : Router.Command :=
  {| Router.triggers := [VStr "skip"; VStr "next"];
     Router.minimumRole := VUndefined;
     Router.insufficientPermissionsHandler := false |}.

Definition capital_skip : Router.Command :=
  {| Router.triggers := [VStr "Skip"];
     Router.minimumRole := VUndefined;
     Router.insufficientPermissionsHandler := false |}.

Definition commands : list Router.Command := [skip_for_mods; skip_for_all].

End Sample.

(** * The rest of the translator, the tracker's queries and the dispatcher *)

(** ** Translator: Advance and wait-list events (src/translator.js) *)

Module TranslatorRest.

Record DubScore := {
  score_grabs : value;
  score_downdubs : value;
  score_updubs : value
}.

Record DubLastPlay := {
  last_user : option DubUser;
  last_media : option DubMedia;
  last_score : option DubScore
}.

(** [startTime], when the event has one, is a number. *)
Record DubAdvanceEvent := {
  adv_user : option DubUser;
  adv_media : option DubMedia;
  adv_startTime : option Z;
  adv_lastPlay : option DubLastPlay
}.

Record DubQueueEntry := {
  queue_media : option DubMedia;
  queue_user : option DubUser
}.

Definition translateScoreObject (score : option DubScore) : value :=
  match score with
  | None => VNull
  | Some sc =>
      VObj [("grabs", score_grabs sc);
            ("mehs", score_downdubs sc);
            ("woots", score_updubs sc)]
  end.

Section Media.

Variable divide : value -> value -> value.

(** [new Date()] is [VDate (VNum now)].  [None] is the [null] returned for
    an event without user or media. *)
Definition translateAdvanceEvent (now : Z) (event : DubAdvanceEvent)
  : option object :=
  match adv_user event, adv_media event with
  | Some _, Some _ =>
      let obj :=
        [("incomingDJ", translateUserObject now (adv_user event));
         ("localStartDate", VDate (VNum now));
         ("media", translateMediaObject divide (adv_media event));
         ("startDate",
          match adv_startTime event with
          | Some startTime =>
              if negb (startTime =? 0) && (0 <? startTime)
              then translateDateTimestamp now (VNum startTime)
              else VDate (VNum now)
          | None => VDate (VNum now)
          end)] in
      match adv_lastPlay event with
      | Some {| last_user := Some u; last_media := Some m; last_score := Some sc |} =>
          Some (set obj "previousPlay"
                  (VObj [("dj", translateUserObject now (Some u));
                         ("media", translateMediaObject divide (Some m));
                         ("score", translateScoreObject (Some sc))]))
      | _ => Some obj
      end
  | _, _ => None
  end.

(** [None] is the [undefined] returned for an event without queue. *)
Definition translateRoomPlaylistQueueUpdateEvent (now : Z)
    (queue : option (list DubQueueEntry)) : option object :=
  match queue with
  | None => None
  | Some entries =>
      Some [("queue",
             VArr (map (fun entry =>
                          VObj [("media", translateMediaObject divide (queue_media entry));
                                ("user", translateUserObject now (queue_user entry))])
                       entries))]
  end.

End Media.

End TranslatorRest.

(** ** Tracker: queries and the remaining dispatch paths *)

Module TrackerRest.

(** [roomState.findUserInRoomById] ([null] is [None]). *)
Definition findUserInRoomById (s : RoomState) (userID : value) : option object :=
  _findUser (usersInRoom s) userID.

(** The loop of [roomState.findPlaysForContentId]; reading [contentID] from
    a play whose media is [undefined] or [null] throws. *)
Fixpoint plays_for (contentID : value) (history : list Play)
  : list Play + error :=
  match history with
  | [] => inl []
  | play :: rest =>
      match member (media play) "contentID" with
      | inr e => inr e
      | inl c =>
          match plays_for contentID rest with
          | inr e => inr e
          | inl plays =>
              inl (if strict_equal c contentID then play :: plays else plays)
          end
      end
  end.

Definition findPlaysForContentId (s : RoomState) (contentID : value)
  : list Play + error :=
  plays_for contentID (playHistory s).

Section Media.

Variable divide : value -> value -> value.

Definition dispatch_advance (cfg : Config) (now : Z)
    (event : TranslatorRest.DubAdvanceEvent) (s : RoomState) : outcome :=
  match TranslatorRest.translateAdvanceEvent divide now event with
  | None => Normal s
  | Some internalObject =>
      onAdvance cfg (set internalObject "eventName" (VStr Types.Event.ADVANCE)) s
  end.

Definition dispatch_queue_update (now : Z)
    (queue : option (list TranslatorRest.DubQueueEntry)) (s : RoomState)
  : RoomState :=
  match TranslatorRest.translateRoomPlaylistQueueUpdateEvent divide now queue with
  | None => s
  | Some internalObject =>
      onRoomPlaylistQueueUpdate
        (set internalObject "eventName"
             (VStr Types.Event.ROOM_PLAYLIST_QUEUE_UPDATE)) s
  end.

End Media.

(** The chat dispatcher in front of the command router. *)
Definition route_chat (commands : list Command) (cfg : Config)
    (event : DubChatEvent) : Trace.t invocation unit :=
  match translateChatEvent event with
  | inr e => Trace.throw e
  | inl (internalObject, _) =>
      commandHandler commands cfg
        (set internalObject "eventName" (VStr Types.Event.CHAT))
  end.

End TrackerRest.

(** ** Event subscription and dispatch (src/dubtrack.js) *)

Module Dispatcher.

(** The keys of [Types.Event], in source order. *)
Inductive event_key :=
| ADVANCE | CHAT | CHAT_DELETE | GRAB | MODERATE_BAN | MODERATE_MUTE
| ROOM_PLAYLIST_QUEUE_UPDATE | ROOM_UPDATE | SKIP | USER_IMAGE_UPDATE
| USER_JOIN | USER_LEAVE | USER_SET_ROLE | USER_UNBAN | USER_UNMUTE
| USER_UNSET_ROLE | USER_UPDATE | VOTE.

Definition event_keys : list event_key :=
  [ADVANCE; CHAT; CHAT_DELETE; GRAB; MODERATE_BAN; MODERATE_MUTE;
   ROOM_PLAYLIST_QUEUE_UPDATE; ROOM_UPDATE; SKIP; USER_IMAGE_UPDATE;
   USER_JOIN; USER_LEAVE; USER_SET_ROLE; USER_UNBAN; USER_UNMUTE;
   USER_UNSET_ROLE; USER_UPDATE; VOTE].

(** [Types.Event[key]] *)
Definition event_name (key : event_key) : string :=
  match key with
  | ADVANCE => "room_playlist-update"
  | CHAT => "chat-message"
  | CHAT_DELETE => "delete-chat-message"
  | GRAB => "room_playlist-queue-update-grabs"
  | MODERATE_BAN => "user-ban"
  | MODERATE_MUTE => "user-mute"
  | ROOM_PLAYLIST_QUEUE_UPDATE => "room_playlist-queue-update-dub"
  | ROOM_UPDATE => "room-update"
  | SKIP => "chat-skip"
  | USER_IMAGE_UPDATE => "user-update"
  | USER_JOIN => "user-join"
  | USER_LEAVE => "user-leave"
  | USER_SET_ROLE => "user-setrole"
  | USER_UNBAN => "user-unban"
  | USER_UNMUTE => "user-unmute"
  | USER_UNSET_ROLE => "user-unsetrole"
  | USER_UPDATE => "user_update"
  | VOTE => "room_playlist-dub"
  end.

(** The key whose event name is [name], if any. *)
Definition key_named (name : string) : option event_key :=
  find (fun key => (event_name key =? name)%string) event_keys.

(** A registered listener: the callback, by name, and its context. *)
Record listener := {
  callback : string;
  context : value
}.

(** [this.eventHandlers]: the constructor gives it one array per event name
    and nothing adds or removes a property afterwards, so the object is the
    array found under each key. *)
Definition handlers := event_key -> list listener.

Definition no_handlers : handlers := fun _ => [].

(** The properties every object inherits from [Object.prototype]: for these
    names [this.eventHandlers[name]] is a truthy value without [push]. *)
Definition inherited (name : string) : bool :=
  existsb (String.eqb name)
    ["constructor"; "hasOwnProperty"; "isPrototypeOf"; "propertyIsEnumerable";
     "toLocaleString"; "toString"; "valueOf"; "__proto__";
     "__defineGetter__"; "__defineSetter__";
     "__lookupGetter__"; "__lookupSetter__"].

(** [Bot.prototype.on] *)
Definition on (h : handlers) (eventName : string) (cb : string) (ctx : value)
  : handlers + error :=
  match key_named eventName with
  | Some key =>
      inl (fun k =>
             if (event_name k =? event_name key)%string
             then (h k ++ [{| callback := cb; context := ctx |}])%list
             else h k)
  | None =>
      if inherited eventName then inr TypeError
      else inl h                                          (* after LOG.error *)
  end.

(** A call of a listener with the translated event. *)
Inductive delivery :=
| Delivered (l : listener) (internalObject : object).

(** The function made by [_createEventDispatcher] for the event [key]:
    [translator] is [None] when the translator map has no entry for the
    event, and a translator gives [None] for a falsy result. *)
Definition dispatch {V : Type} (h : handlers) (key : event_key)
    (translator : option (V -> option object)) (event : V) : list delivery :=
  let listeners := h key in
  match translator with
  | None => []                                            (* after LOG.error *)
  | Some translate =>
      match translate event with
      | None => []
      | Some internalObject =>
          let internalObject :=
            set internalObject "eventName" (VStr (event_name key)) in
          map (fun l => Delivered l internalObject) listeners
      end
  end.

(** Registrations made one after the other; an exception ends them. *)
Fixpoint on_all (h : handlers) (regs : list (string * listener))
  : handlers + error :=
  match regs with
  | [] => inl h
  | (name, l) :: rest =>
      match on h name (callback l) (context l) with
      | inl h' => on_all h' rest
      | inr e => inr e
      end
  end.

End Dispatcher.

(** ** Vocabulary for the further properties *)

(** The chat object that [onChat] puts in front of the history. *)
Definition new_chat (now : Z) (event : object) : ChatObj :=
  {| chatID := get event "chatID";
     message := get event "message";
     timestamp := VNum now;
     type := get event "type";
     userID := get event "userID";
     username := get event "username";
     wasUserMuted := get event "isMuted";
     isDeleted := VUndefined;
     deletedByUserID := VUndefined;
     deletionTime := VUndefined |}.

(** What a chat object is, apart from its deletion marks. *)
Definition content (c : ChatObj)
  : value * value * value * value * value * value * value :=
  (chatID c, message c, timestamp c, type c, userID c, username c,
   wasUserMuted c).

(** The condition under which the cascade of [onChatDelete] goes on. *)
Definition cascades (deletedMessageUserID : value) (c : ChatObj) : bool :=
  strict_equal (userID c) deletedMessageUserID && negb (truthy (isDeleted c)).

(** The user IDs of the users in the room, in order. *)
Definition ids (users : list object) : list value :=
  map (fun u => get u "userID") users.

(** The object [translateUserObject] builds for a user that is there. *)
Definition user_object (now : Z) (u : DubUser) : object :=
  [("dubs", du_dubs u);
   ("joinDate", translateDateTimestamp now (du_created u));
   ("numberOfSongsPlayed", du_playedCount u);
   ("role", translateRole (du_role u));
   ("userID", du_id u);
   ("username", du_username u)].

(** The listeners registered for [name] among [regs], in order. *)
Definition registered_for (name : string) (regs : list (string * Dispatcher.listener))
  : list Dispatcher.listener :=
  map snd (filter (fun r => (fst r =? name)%string) regs).

(** The content ID of a play whose media is an object. *)
Definition contentID_of (p : Play) : value :=
  match media p with
  | VObj props => get props "contentID"
  | _ => VUndefined
  end.

Definition media_is_object (p : Play) : Prop :=
  exists props, media p = VObj props.

(** The votes with which [populateUsers] seeds the current play. *)
Definition seeded_votes (users : list DubUser) : Votes :=
  {| grabs := map du_id (filter (fun u => truthy (du_grab u)) users);
     mehs := map du_id (filter (fun u => strict_equal (du_vote u) (VNum (-1))) users);
     woots := map du_id (filter (fun u => strict_equal (du_vote u) (VNum 1)) users) |}.

Definition is_queue_update (e : tracked_event) : bool :=
  match e with ROOM_PLAYLIST_QUEUE_UPDATE _ => true | _ => false end.

Definition changes_votes (e : tracked_event) : bool :=
  match e with GRAB _ | VOTE _ => true | _ => false end.

(** ** More sample data *)

Module Vendor.

Definition track (fkid : string) : DubMedia :=
  {| media_fkid := VStr fkid; media_songLength := VNum 200000;
     media_name := VStr "a song" |}.

Definition advance_of (dj : DubUser) (fkid : string) (startTime : option Z)
  : TranslatorRest.DubAdvanceEvent :=
  {| TranslatorRest.adv_user := Some dj;
     TranslatorRest.adv_media := Some (track fkid);
     TranslatorRest.adv_startTime := startTime;
     TranslatorRest.adv_lastPlay := None |}.

(** A user with the manager role of the vendor. *)
Definition manager : DubUser :=
  {| du_id := VStr "idG"; du_username := VStr "manager";
     du_role := VStr "5615fd84e596150061000003";
     du_dubs := VNum 0; du_created := VNum 1450000000000;
     du_playedCount := VNum 0; du_grab := VUndefined; du_vote := VUndefined |}.

Definition entry (dj : DubUser) (fkid : string) : TranslatorRest.DubQueueEntry :=
  {| TranslatorRest.queue_media := Some (track fkid);
     TranslatorRest.queue_user := Some dj |}.

End Vendor.

(** The role identifiers of the vendor that [translateRole] knows. *)
Definition known_role_ids : list string :=
  ["5615fa9ae596154a5c000000"; "5615fd84e596150061000003";
   "52d1ce33c38a06510c000001"; "5615fe1ee596154fc2000001";
   "5615feb8e596154fc2000002"; "564435423f6ba174d2000001"].

(** The object stored in the wait list for a queue entry. *)
Definition queue_item (divide : value -> value -> value) (now : Z)
    (entry : TranslatorRest.DubQueueEntry) : value :=
  VObj [("media", translateMediaObject divide (TranslatorRest.queue_media entry));
        ("user", translateUserObject now (TranslatorRest.queue_user entry))].

(** ** Vocabulary for the parsing of commands *)

Fixpoint no_space (s : string) : bool :=
  match s with
  | EmptyString => true
  | String c rest => negb (is_space c) && no_space rest
  end.

Fixpoint only_space (s : string) : bool :=
  match s with
  | EmptyString => true
  | String c rest => is_space c && only_space rest
  end.

(** Arguments, each behind its separator. *)
Fixpoint spaced (args : list (string * string)) : string :=
  match args with
  | [] => EmptyString
  | (separator, arg) :: rest => separator ++ arg ++ spaced rest
  end.

(** A non-empty run of whitespace, then a non-empty word without any. *)
Definition well_spaced (sa : string * string) : Prop :=
  only_space (fst sa) = true /\ fst sa <> EmptyString /\
  no_space (snd sa) = true /\ snd sa <> EmptyString.

(** * Properties *)

Local Open Scope list_scope.

(** ** Values and arrays *)

Lemma strict_equal_eq (a b : value) : strict_equal a b = true -> a = b.
Proof.
  destruct a, b; simpl; try discriminate; intros H; try reflexivity.
  - apply Bool.eqb_prop in H. now subst.
  - apply Z.eqb_eq in H. now subst.
  - apply String.eqb_eq in H. now subst.
Qed.

Lemma strict_equal_refl (a : value) :
  is_primitive a = true -> strict_equal a a = true.
Proof.
  destruct a; simpl; try discriminate; intros _; try reflexivity.
  - apply Bool.eqb_reflx.
  - apply Z.eqb_refl.
  - apply String.eqb_refl.
Qed.

Lemma indexOf_lower_bound {A : Type} (eqb : A -> A -> bool) x l :
  -1 <= indexOf eqb x l.
Proof.
  induction l as [|y l IH]; simpl; [lia|].
  destruct (eqb y x); [lia|].
  destruct (indexOf eqb x l <? 0) eqn:E; [lia|].
  apply Z.ltb_ge in E. lia.
Qed.

(** [indexOf] is negative exactly when no element equals [x]. *)
Lemma indexOf_absent {A : Type} (eqb : A -> A -> bool) x l :
  indexOf eqb x l < 0 <-> (forall y, In y l -> eqb y x = false).
Proof.
  induction l as [|z l IH]; simpl.
  - split; [intros _ y []|lia].
  - destruct (eqb z x) eqn:Ez.
    + split; [lia|]. intros H. specialize (H z (or_introl eq_refl)). congruence.
    + destruct (indexOf eqb x l <? 0) eqn:E.
      * apply Z.ltb_lt in E. split; [|lia].
        intros _ y [<-|Hy]; [assumption|]. now apply IH.
      * apply Z.ltb_ge in E. split; [lia|].
        intros H. assert (indexOf eqb x l < 0); [|lia].
        apply IH. intros y Hy. apply H. now right.
Qed.

Lemma indexOf_present (x : value) (l : list value) :
  is_primitive x = true -> In x l -> 0 <= indexOf strict_equal x l.
Proof.
  intros Hp Hin.
  destruct (Z.lt_ge_cases (indexOf strict_equal x l) 0) as [Hneg|]; [|assumption].
  rewrite indexOf_absent in Hneg. specialize (Hneg x Hin).
  rewrite strict_equal_refl in Hneg by assumption. discriminate.
Qed.

Lemma firstn_app_firstn {A : Type} (m : nat) (a b : list A) :
  firstn m (a ++ firstn m b) = firstn m (a ++ b).
Proof.
  rewrite !firstn_app, firstn_firstn.
  now replace (Nat.min (m - List.length a) m) with (m - List.length a)%nat by lia.
Qed.

(** ** Play history under Advance events *)

Section Advance.

Variable cfg : Config.
Hypothesis max_nonneg : 0 <= numberOfPlayedSongsToStore cfg.

Let max := Z.to_nat (numberOfPlayedSongsToStore cfg).

(** One Advance event: the handler returns normally and the play history is
    the new play in front of the old history, cut to the maximum. *)
Lemma onAdvance_step (event : object) (s : RoomState) :
  exists s', onAdvance cfg event s = Normal s' /\
             playHistory s' = firstn max (new_play event :: playHistory s).
Proof.
  unfold onAdvance, set_length. cbn [playHistory with_playHistory].
  destruct (Z.of_nat (List.length (new_play event :: playHistory s))
            >? numberOfPlayedSongsToStore cfg) eqn:Hlen.
  - replace (numberOfPlayedSongsToStore cfg <? 0) with false
      by (symmetry; apply Z.ltb_ge; exact max_nonneg).
    eexists. split; [reflexivity|]. reflexivity.
  - eexists. split; [reflexivity|]. cbn [playHistory with_playHistory].
    symmetry. apply firstn_all2. subst max.
    rewrite Z.gtb_ltb in Hlen. apply Z.ltb_ge in Hlen. lia.
Qed.

Lemma advance_sequence (now : Z) (events : list object) :
  forall (event : object) (s : RoomState),
  exists s', deliver_all cfg now (map ADVANCE (event :: events)) s = Normal s' /\
             playHistory s' =
               firstn max (rev (map new_play (event :: events)) ++ playHistory s).
Proof.
  induction events as [|e2 events IH]; intros event s.
  - destruct (onAdvance_step event s) as (s' & Hs & Hh).
    exists s'. cbn. rewrite Hs. split; [reflexivity|]. exact Hh.
  - destruct (onAdvance_step event s) as (s1 & Hs & Hh).
    destruct (IH e2 s1) as (s' & Hrun & Hh').
    exists s'. split.
    + change (map ADVANCE (event :: e2 :: events))
        with (ADVANCE event :: map ADVANCE (e2 :: events)).
      cbn [deliver_all deliver]. rewrite Hs. exact Hrun.
    + rewrite Hh', Hh, firstn_app_firstn.
      change (map new_play (event :: e2 :: events))
        with (new_play event :: map new_play (e2 :: events)).
      cbn [rev]. now rewrite <- app_assoc.
Qed.

End Advance.

(** C4. For every non-empty sequence of Advance events delivered to the
    tracker with a non-negative configured maximum
    [numberOfPlayedSongsToStore], every handler returns normally, the
    resulting play history is no longer than the maximum, and it is the
    plays of the events, the most recent one first, followed by the plays
    that were there before, cut to the maximum. *)
Theorem play_history_bounded_most_recent_first :
  forall (cfg : Config) (now : Z) (events : list object) (s : RoomState),
    0 <= numberOfPlayedSongsToStore cfg ->
    events <> [] ->
    exists s',
      deliver_all cfg now (map ADVANCE events) s = Normal s' /\
      Z.of_nat (List.length (playHistory s')) <= numberOfPlayedSongsToStore cfg /\
      playHistory s' =
        firstn (Z.to_nat (numberOfPlayedSongsToStore cfg))
               (rev (map new_play events) ++ playHistory s).
Proof.
  intros cfg now events s Hmax Hne.
  destruct events as [|event events]; [congruence|].
  destruct (advance_sequence cfg Hmax now events event s) as (s' & Hrun & Hh).
  exists s'. split; [exact Hrun|]. split; [|exact Hh].
  rewrite Hh.
  pose proof (firstn_le_length (Z.to_nat (numberOfPlayedSongsToStore cfg))
                (rev (map new_play (event :: events)) ++ playHistory s)).
  lia.
Qed.

(** ** Grabs *)

Lemma keeps_grabs_refl (p : Play) : keeps_grabs p p.
Proof. repeat split; apply incl_refl. Qed.

Create HintDb tracker.
#[local] Hint Resolve keeps_grabs_refl incl_refl incl_appl : tracker.

Lemma onGrab_present (event : object) (s : RoomState) (p : Play) older :
  playHistory s = p :: older ->
  is_primitive (get event "userID") = true ->
  In (get event "userID") (grabs (votes p)) ->
  onGrab event s = Normal s.
Proof.
  intros Hh Hp Hin. unfold onGrab. rewrite Hh.
  pose proof (indexOf_present _ _ Hp Hin) as Hidx.
  apply Z.ltb_ge in Hidx. now rewrite Hidx.
Qed.

(** A second delivery of the same Grab event changes nothing. *)
Lemma onGrab_twice (event : object) (s s1 : RoomState) :
  is_primitive (get event "userID") = true ->
  onGrab event s = Normal s1 ->
  onGrab event s1 = Normal s1.
Proof.
  intros Hp. unfold onGrab at 1.
  destruct (playHistory s) as [|p older] eqn:Hh; [discriminate|].
  destruct (indexOf strict_equal (get event "userID") (grabs (votes p)) <? 0)
    eqn:Hidx; intros [= <-].
  - eapply onGrab_present; [reflexivity|assumption|].
    cbn. apply in_or_app. right. now left.
  - unfold onGrab. now rewrite Hh, Hidx.
Qed.

Lemma onGrab_keeps (event : object) (s : RoomState) (i : nat) (p : Play) :
  nth_error (playHistory s) i = Some p ->
  exists p', nth_error (playHistory (state_of (onGrab event s))) i = Some p' /\
             keeps_grabs p p'.
Proof.
  intros Hi. unfold onGrab.
  destruct (playHistory s) as [|p0 older] eqn:Hh.
  - cbn. rewrite Hh. destruct i; discriminate.
  - destruct (indexOf strict_equal (get event "userID") (grabs (votes p0)) <? 0).
    + destruct i as [|i]; cbn in *.
      * injection Hi as <-. eexists. split; [reflexivity|].
        repeat split; cbn; auto with tracker.
      * eauto with tracker.
    + cbn. rewrite Hh. eauto with tracker.
Qed.

Lemma onVote_keeps (event : object) (s : RoomState) (i : nat) (p : Play) :
  nth_error (playHistory s) i = Some p ->
  exists p', nth_error (playHistory (state_of (onVote event s))) i = Some p' /\
             keeps_grabs p p'.
Proof.
  intros Hi. unfold onVote.
  destruct (playHistory s) as [|p0 older] eqn:Hh.
  - cbn. rewrite Hh. destruct i; discriminate.
  - destruct i as [|i]; cbn in *.
    + injection Hi as <-. eexists. split; [reflexivity|].
      repeat split; cbn.
      destruct (strict_equal (get event "vote") (VNum 1));
        [|destruct (strict_equal (get event "vote") (VNum (-1)))];
        cbn; auto with tracker.
    + eauto with tracker.
Qed.

Lemma onAdvance_keeps (cfg : Config) (event : object) (s : RoomState)
    (i : nat) (p p' : Play) :
  nth_error (playHistory s) i = Some p ->
  nth_error (playHistory (state_of (onAdvance cfg event s))) (S i) = Some p' ->
  p' = p.
Proof.
  intros Hi. unfold onAdvance, set_length. cbn [playHistory with_playHistory].
  destruct (_ >? _); [destruct (_ <? _)|]; cbn [state_of playHistory with_playHistory].
  - cbn. congruence.
  - rewrite nth_error_firstn. destruct (_ <? _)%nat; [|discriminate].
    cbn. congruence.
  - cbn. congruence.
Qed.

Lemma onChat_playHistory (cfg : Config) (now : Z) (event : object) s :
  playHistory (state_of (onChat cfg now event s)) = playHistory s.
Proof.
  unfold onChat. destruct (_ >? _); [destruct (set_length _ _)|]; reflexivity.
Qed.

Lemma onChatDelete_playHistory (now : Z) (event : object) s :
  playHistory (fst (onChatDelete now event s)) = playHistory s.
Proof.
  unfold onChatDelete. now destruct (delete_from now event (chatHistory s)).
Qed.

Lemma onUserJoin_playHistory (event : object) s :
  playHistory (onUserJoin event s) = playHistory s.
Proof. unfold onUserJoin. now destruct (_findUser _ _). Qed.

(** No event of the tracker removes a grabber from a play: after the event
    the play is found one place further when the event is an Advance, at
    the same place otherwise, with all its grabbers, unless the truncation
    of an Advance has dropped the play from the history. *)
Lemma deliver_keeps_grabs (cfg : Config) (now : Z) (e : tracked_event)
    (s : RoomState) (i : nat) (p : Play) :
  nth_error (playHistory s) i = Some p ->
  match nth_error (playHistory (state_of (deliver cfg now e s))) (i + shift e) with
  | Some p' => keeps_grabs p p'
  | None => exists event, e = ADVANCE event
  end.
Proof.
  intros Hi. destruct e as [event|event|event|event|event|event|event|event];
    cbn [deliver shift state_of]; rewrite ?Nat.add_0_r, ?Nat.add_1_r.
  - destruct (nth_error _ (S i)) as [p'|] eqn:Hp'; [|eauto].
    rewrite (onAdvance_keeps _ _ _ _ _ _ Hi Hp'). auto with tracker.
  - rewrite onChat_playHistory, Hi. auto with tracker.
  - rewrite onChatDelete_playHistory, Hi. auto with tracker.
  - destruct (onGrab_keeps event s i p Hi) as (p' & -> & Hk). exact Hk.
  - cbn. rewrite Hi. auto with tracker.
  - cbn. rewrite Hi. auto with tracker.
  - rewrite onUserJoin_playHistory, Hi. auto with tracker.
  - destruct (onVote_keeps event s i p Hi) as (p' & -> & Hk). exact Hk.
Qed.

(** C9. Grab is idempotent and monotone.  A Grab event whose userID (a
    primitive value) is already in the grabs of the current play leaves the
    room state, hence that set, unchanged; and no event delivered to the
    tracker removes a userID from the grabs of a play: the play keeps all
    its grabbers for as long as it stays in the history. *)
Theorem grab_idempotent_and_monotone :
  forall s : RoomState,
    (forall (event : object) (p : Play) (older : list Play),
        playHistory s = p :: older ->
        is_primitive (get event "userID") = true ->
        In (get event "userID") (grabs (votes p)) ->
        onGrab event s = Normal s) /\
    (forall (cfg : Config) (now : Z) (e : tracked_event) (i : nat) (p : Play),
        nth_error (playHistory s) i = Some p ->
        match nth_error (playHistory (state_of (deliver cfg now e s)))
                        (i + shift e) with
        | Some p' => keeps_grabs p p'
        | None => exists event, e = ADVANCE event
        end).
Proof.
  intros s. split.
  - intros event p older. apply onGrab_present.
  - intros cfg now e i p. apply deliver_keeps_grabs.
Qed.

(** ** Grab and Vote on an empty play history *)

Lemma populateUsers_playHistory divide now media dj users elapsedTime s :
  media = None \/ dj = None ->
  playHistory (populateUsers divide now media dj users elapsedTime s)
  = playHistory s.
Proof.
  intros [-> | ->]; unfold populateUsers; cbn.
  - reflexivity.
  - now rewrite andb_false_r.
Qed.

(** C10. The Grab and Vote handlers need a non-empty play history.  On an
    empty play history both throw a TypeError and leave the room state as it
    was; on a non-empty one both return normally.  The play history is empty
    after initialisation when the room has no current media or no current
    DJ. *)
Theorem grab_and_vote_need_a_current_play :
  (forall (event : object) (s : RoomState),
      playHistory s = [] ->
      onGrab event s = Raised TypeError s /\ onVote event s = Raised TypeError s) /\
  (forall (event : object) (s : RoomState),
      playHistory s <> [] ->
      (exists s', onGrab event s = Normal s') /\
      (exists s', onVote event s = Normal s')) /\
  (forall divide now media dj users elapsedTime,
      media = None \/ dj = None ->
      playHistory (init divide now media dj users elapsedTime) = []).
Proof.
  split; [|split].
  - intros event s Hh. unfold onGrab, onVote. now rewrite Hh.
  - intros event s Hh. unfold onGrab, onVote.
    destruct (playHistory s) as [|p older]; [congruence|].
    split; [|eauto]. destruct (_ <? _); eauto.
  - intros divide now media dj users elapsedTime H. unfold init.
    now rewrite populateUsers_playHistory.
Qed.

(** ** Chat deletion *)

Lemma four_messages_stored_most_recent_first :
  exists s, Sample.four_messages = Normal s /\
            map chatID (chatHistory s)
            = [VStr "M4"; VStr "M3"; VStr "M2"; VStr "M1"] /\
            map userID (chatHistory s)
            = [VStr "idA"; VStr "idB"; VStr "idA"; VStr "idA"].
Proof. eexists. split; [reflexivity|]. split; reflexivity. Qed.

(** C1. With M1(userA), M2(userA), M3(userB), M4(userA) received in that
    order and stored most-recent-first, a Chat Delete event naming M1 marks
    M1 alone: M2, M3 and M4 stay unmarked and the list of deleted messages
    holds M1 only.  The scan goes on from M1 towards higher indices, where
    the older messages are, and M1 is the oldest. *)
Theorem chat_delete_of_M1_marks_M1_only :
  match dispatch_chat_delete 105 (Sample.delete "M1")
          (state_of Sample.four_messages) with
  | inl (s', deletedMessages) =>
      map (fun c => (chatID c, isDeleted c)) (chatHistory s')
      = [(VStr "M4", VUndefined); (VStr "M3", VUndefined);
         (VStr "M2", VUndefined); (VStr "M1", VBool true)] /\
      map chatID deletedMessages = [VStr "M1"]
  | inr _ => False
  end.
Proof. vm_compute. split; reflexivity. Qed.

(** Deleting M2 instead marks M2 and the older M1. *)
Lemma chat_delete_of_M2_marks_M2_and_M1 :
  match dispatch_chat_delete 105 (Sample.delete "M2")
          (state_of Sample.four_messages) with
  | inl (s', deletedMessages) =>
      map (fun c => (chatID c, isDeleted c)) (chatHistory s')
      = [(VStr "M4", VUndefined); (VStr "M3", VUndefined);
         (VStr "M2", VBool true); (VStr "M1", VBool true)] /\
      map chatID deletedMessages = [VStr "M2"; VStr "M1"]
  | inr _ => False
  end.
Proof. vm_compute. split; reflexivity. Qed.

Lemma cascade_marks currentTime event userID l :
  Forall (marked_by currentTime event)
         (snd (cascade currentTime event userID l)).
Proof.
  induction l as [|c l IH]; cbn; [constructor|].
  destruct (_ && _); [|constructor].
  destruct (cascade currentTime event userID l) as [rest' deleted].
  cbn in *. constructor; [|exact IH]. now repeat split.
Qed.

Lemma delete_from_marks currentTime event l :
  Forall (marked_by currentTime event)
         (snd (delete_from currentTime event l)).
Proof.
  induction l as [|c l IH]; cbn; [constructor|].
  destruct (strict_equal _ _).
  - pose proof (cascade_marks currentTime event
                  (StateTracker.userID (mark_deleted currentTime event c)) l) as H.
    destruct (cascade _ _ _ l) as [rest' deleted]. cbn in *.
    constructor; [|exact H]. now repeat split.
  - destruct (delete_from currentTime event l) as [rest' deleted]. exact IH.
Qed.

(** The translated chat-delete event carries the moderator as [deleterID];
    it has no [modUserID] property. *)
Lemma translated_chat_delete_properties (event : DubChatDeleteEvent) o :
  translateChatDeleteEvent event = inl o ->
  let internalObject := set o "eventName" (VStr Types.Event.CHAT_DELETE) in
  (exists u, del_user event = Some u /\ get internalObject "deleterID" = du_id u) /\
  get internalObject "modUserID" = VUndefined.
Proof.
  unfold translateChatDeleteEvent. destruct (del_user event) as [u|]; [|discriminate].
  intros [= <-]. cbn. split; [eauto|reflexivity].
Qed.

(** Whatever the chat-delete event and the history, every message marked by
    the handler gets the deletion time and [undefined] as the deleting
    user. *)
Lemma chat_delete_records_undefined_moderator now event s s' deletedMessages :
  dispatch_chat_delete now event s = inl (s', deletedMessages) ->
  Forall (fun c => isDeleted c = VBool true /\
                   deletedByUserID c = VUndefined /\
                   deletionTime c = VNum now) deletedMessages.
Proof.
  unfold dispatch_chat_delete.
  destruct (translateChatDeleteEvent event) as [o|] eqn:Ho; [|discriminate].
  destruct (translated_chat_delete_properties event o Ho) as [_ Hmod].
  unfold onChatDelete.
  pose proof (delete_from_marks now
                (set o "eventName" (VStr Types.Event.CHAT_DELETE))
                (chatHistory s)) as H.
  destruct (delete_from _ _ _) as [history deleted]. cbn in H.
  intros [= _ <-]. unfold marked_by in H. now rewrite Hmod in H.
Qed.

(** C2. When the moderator whose user ID is "mod7" deletes M2, the
    translated event carries "mod7" as [deleterID], each of the two
    messages the handler marks records the deletion time, and each records
    [undefined], not "mod7", in [deletedByUserID]. *)
Theorem chat_delete_loses_the_moderator :
  (exists o, translateChatDeleteEvent (Sample.delete "M2") = inl o /\
             get o "deleterID" = VStr "mod7") /\
  match dispatch_chat_delete 105 (Sample.delete "M2")
          (state_of Sample.four_messages) with
  | inl (_, deletedMessages) =>
      map (fun c => (chatID c, deletedByUserID c, deletionTime c))
          deletedMessages
      = [(VStr "M2", VUndefined, VNum 105); (VStr "M1", VUndefined, VNum 105)]
  | inr _ => False
  end.
Proof. split; [eexists; split; reflexivity|]. vm_compute. reflexivity. Qed.

(** ** Votes *)

(** [splice] at the index found by [indexOf] removes the first element
    equal to [u]. *)
Lemma splice_at_indexOf (u : value) (l : list value) :
  0 <= indexOf strict_equal u l ->
  exists l1 l2, l = l1 ++ u :: l2 /\
                splice1 (indexOf strict_equal u l) l = l1 ++ l2.
Proof.
  induction l as [|y l IH]; cbn [indexOf]; [lia|].
  destruct (strict_equal y u) eqn:Hy.
  - intros _. apply strict_equal_eq in Hy. subst y.
    exists [], l. split; reflexivity.
  - destruct (indexOf strict_equal u l <? 0) eqn:Hk; [lia|]. intros _.
    apply Z.ltb_ge in Hk. destruct (IH Hk) as (l1 & l2 & Hl & Hs).
    exists (y :: l1), l2. split; [now rewrite Hl at 1|].
    unfold splice1 in *.
    replace (Z.to_nat (indexOf strict_equal u l + 1))
      with (S (Z.to_nat (indexOf strict_equal u l))) by lia.
    cbn [firstn skipn app]. now rewrite <- Hs.
Qed.

Lemma without_spec (u : value) (l : list value) :
  is_primitive u = true -> NoDup l ->
  NoDup (without u l) /\ ~ In u (without u l) /\
  (forall w, w <> u -> In w (without u l) <-> In w l).
Proof.
  intros Hp Hnd. unfold without.
  destruct (0 <=? indexOf strict_equal u l) eqn:Hidx.
  - apply Z.leb_le in Hidx.
    destruct (splice_at_indexOf u l Hidx) as (l1 & l2 & Hl & ->).
    rewrite Hl in Hnd. split; [|split].
    + eapply NoDup_remove_1; eassumption.
    + eapply NoDup_remove_2; eassumption.
    + intros w Hw. rewrite Hl, !in_app_iff. cbn. intuition congruence.
  - apply Z.leb_gt in Hidx. rewrite indexOf_absent in Hidx.
    split; [assumption|]. split; [|tauto].
    intros Hin. specialize (Hidx u Hin).
    rewrite strict_equal_refl in Hidx by assumption. discriminate.
Qed.

Lemma NoDup_push (u : value) (l : list value) :
  NoDup l -> ~ In u l -> NoDup (l ++ [u]).
Proof.
  intros Hnd Hu. apply NoDup_app; [assumption|repeat constructor; intros []|].
  intros a Ha [<-|[]]. contradiction.
Qed.

(** The handler on an event that does carry a primitive [userID] and a vote
    of 1 or -1, on a current play whose two lists are free of duplicates:
    the lists stay free of duplicates, the voter ends in the list of the
    vote and not in the other one, and nobody else moves. *)
Lemma onVote_moves_the_voter (event : object) (s : RoomState) (p : Play) older :
  playHistory s = p :: older ->
  is_primitive (get event "userID") = true ->
  NoDup (woots (votes p)) -> NoDup (mehs (votes p)) ->
  get event "vote" = VNum 1 \/ get event "vote" = VNum (-1) ->
  exists s' p',
    onVote event s = Normal s' /\ playHistory s' = p' :: older /\
    NoDup (woots (votes p')) /\ NoDup (mehs (votes p')) /\
    (In (get event "userID") (woots (votes p')) <-> get event "vote" = VNum 1) /\
    (In (get event "userID") (mehs (votes p')) <-> get event "vote" = VNum (-1)) /\
    (forall w, w <> get event "userID" ->
       (In w (woots (votes p')) <-> In w (woots (votes p))) /\
       (In w (mehs (votes p')) <-> In w (mehs (votes p)))).
Proof.
  intros Hh Hp Hw Hm Hv. unfold onVote. rewrite Hh.
  fold (without (get event "userID") (woots (votes p))).
  fold (without (get event "userID") (mehs (votes p))).
  destruct (without_spec _ _ Hp Hw) as (Hw1 & Hw2 & Hw3).
  destruct (without_spec _ _ Hp Hm) as (Hm1 & Hm2 & Hm3).
  eexists. eexists. split; [reflexivity|]. split; [reflexivity|].
  destruct Hv as [Hv|Hv]; rewrite Hv; cbn;
    (split; [|split; [|split; [|split]]]);
    auto using NoDup_push;
    try (rewrite in_app_iff; cbn);
    try (intuition (auto; congruence)).
  - intros w Hne. rewrite in_app_iff. cbn. rewrite Hw3, Hm3 by assumption.
    intuition congruence.
  - intros w Hne. rewrite in_app_iff. cbn. rewrite Hw3, Hm3 by assumption.
    intuition congruence.
Qed.

(** The translated Vote event carries the voter as the object [user]; it
    has no [userID] property. *)
Lemma translated_vote_has_no_userID (now : Z) (event : DubVoteEvent) o :
  translateVoteEvent now event = Some o ->
  let internalObject := set o "eventName" (VStr Types.Event.VOTE) in
  get internalObject "user" = translateUserObject now (vote_user event) /\
  get internalObject "userID" = VUndefined.
Proof.
  unfold translateVoteEvent. destruct (_ && _); [discriminate|].
  intros [= <-]. cbn. split; reflexivity.
Qed.

(** Through the dispatcher, a vote changes the place of [undefined] only:
    every other value, the ID of the voter included, is in the woots and in
    the mehs after the vote exactly when it was there before. *)
Lemma dispatch_vote_moves_undefined (now : Z) (event : DubVoteEvent)
    (s : RoomState) (p : Play) older :
  playHistory s = p :: older ->
  NoDup (woots (votes p)) -> NoDup (mehs (votes p)) ->
  vote_dubtype event = VStr "updub" \/ vote_dubtype event = VStr "downdub" ->
  exists s' p',
    dispatch_vote now event s = Normal s' /\ playHistory s' = p' :: older /\
    forall w, w <> VUndefined ->
      (In w (woots (votes p')) <-> In w (woots (votes p))) /\
      (In w (mehs (votes p')) <-> In w (mehs (votes p))).
Proof.
  intros Hh Hw Hm Hd. unfold dispatch_vote.
  destruct (translateVoteEvent now event) as [o|] eqn:Ho.
  - destruct (translated_vote_has_no_userID now event o Ho) as [_ Hid].
    cbn zeta in Hid.
    destruct (onVote_moves_the_voter
                (set o "eventName" (VStr Types.Event.VOTE)) s p older Hh)
      as (s' & p' & Hrun & Hh' & _ & _ & _ & _ & Hrest);
      try assumption.
    + now rewrite Hid.
    + revert Ho. unfold translateVoteEvent.
      destruct Hd as [-> | ->]; cbn; intros [= <-]; cbn; auto.
    + exists s', p'. rewrite Hid in Hrest. auto.
  - revert Ho. unfold translateVoteEvent.
    destruct Hd as [-> | ->]; cbn; discriminate.
Qed.

(** C3. In a room with a current play and no votes yet, userA votes up and
    then userB votes down, both events going through the translator and the
    dispatcher.  After the first vote the woots hold [undefined] and not the
    ID of userA, who is in neither list; after the second vote the woots are
    empty and the mehs hold [undefined]: the up-vote of userA is gone and
    neither voter is in any list. *)
Theorem votes_are_recorded_under_undefined :
  let s1 := state_of (dispatch_vote 101 (Sample.vote "updub" Sample.userA)
                        Sample.playing_room) in
  let s2 := state_of (dispatch_vote 102 (Sample.vote "downdub" Sample.userB) s1) in
  map (fun p => (woots (votes p), mehs (votes p))) (playHistory Sample.playing_room)
  = [([], [])] /\
  map (fun p => (woots (votes p), mehs (votes p))) (playHistory s1)
  = [([VUndefined], [])] /\
  map (fun p => (woots (votes p), mehs (votes p))) (playHistory s2)
  = [([], [VUndefined])].
Proof. vm_compute. repeat split. Qed.

(** ** Chat classification *)

Lemma bang_is_command (event : DubChatEvent) (rest : string) :
  chat_message event = String "!" rest ->
  translateChatType event = (Types.ChatType.COMMAND, event).
Proof. unfold translateChatType. now intros ->. Qed.

Lemma command_example :
  match translateChatEvent (Sample.chat "c1" Sample.userA "!woot a b") with
  | inl (obj, _) =>
      get obj "type" = Types.ChatType.COMMAND /\
      get obj "command" = VStr "woot" /\
      get obj "args" = VArr [VStr "a"; VStr "b"]
  | inr _ => False
  end.
Proof. vm_compute. repeat split. Qed.

Lemma plain_text_example :
  match translateChatEvent (Sample.chat "c1" Sample.userA "hello there") with
  | inl (obj, _) =>
      get obj "type" = Types.ChatType.MESSAGE /\
      get obj "message" = VStr "hello there" /\
      get obj "command" = VUndefined
  | inr _ => False
  end.
Proof. vm_compute. repeat split. Qed.

(** The [message] of the translated event is the message as received,
    whatever its type. *)
Lemma translated_message_is_the_original (event event' : DubChatEvent) obj :
  translateChatEvent event = inl (obj, event') ->
  get obj "message" = VStr (chat_message event).
Proof.
  unfold translateChatEvent.
  destruct (translateChatType event) as [type ev1].
  destruct (chat_user ev1) as [u|]; [|destruct (chat_raw_user ev1) as [r|]];
    try discriminate;
    (destruct (strict_equal type Types.ChatType.COMMAND);
     intros [= <- _]; reflexivity).
Qed.

(** C5. The message "/me dances" is typed EMOTE, but the translated event
    keeps "/me dances" as its message: the prefix is stripped from the
    message of the vendor event only, after the translated message has been
    read from it.  And the message "see /me dance", which has "/me " in the
    middle and not as a prefix, is typed EMOTE as well, not MESSAGE. *)
Theorem emote_classification_misses :
  match translateChatEvent (Sample.chat "c1" Sample.userA "/me dances") with
  | inl (obj, event') =>
      get obj "type" = Types.ChatType.EMOTE /\
      get obj "message" = VStr "/me dances" /\
      chat_message event' = "dances"%string
  | inr _ => False
  end /\
  match translateChatEvent (Sample.chat "c2" Sample.userA "see /me dance") with
  | inl (obj, event') =>
      get obj "type" = Types.ChatType.EMOTE /\
      get obj "message" = VStr "see /me dance" /\
      chat_message event' = "/me dance"%string
  | inr _ => False
  end.
Proof. vm_compute. repeat split. Qed.

(** ** Outbound actions *)

Section ActionLemmas.

Variable queues : Bot.request -> bool.

(** The six guarded actions make the same request with or without a
    callback, never throw, and call the callback once, with the answer of
    the vendor client. *)
Lemma simple_action_without_callback (r : Bot.request) :
  Bot.simple_action queues r None = ([Bot.Requested r], inl tt).
Proof. unfold Bot.simple_action, Bot.transport. cbn. now destruct (queues r). Qed.

Lemma simple_action_with_callback (r : Bot.request) (f : string) :
  Bot.simple_action queues r (Some f)
  = ([Bot.Requested r; Bot.Called f (queues r)], inl tt).
Proof. unfold Bot.simple_action, Bot.transport. cbn. now destruct (queues r). Qed.

Lemma moveDjInWaitList_with_callback (userID newPosition : value) (f : string) :
  Bot.moveDjInWaitList queues userID newPosition (Some f)
  = ([Bot.Requested (Bot.moderateMoveDJ userID newPosition);
      Bot.Called f (queues (Bot.moderateMoveDJ userID newPosition))], inl tt).
Proof.
  unfold Bot.moveDjInWaitList, Bot.transport. cbn.
  now destruct (queues (Bot.moderateMoveDJ userID newPosition)).
Qed.

(** Without a callback, moving a DJ throws as soon as the vendor client
    completes a request it has queued. *)
Lemma moveDjInWaitList_without_callback (userID newPosition : value) :
  Bot.moveDjInWaitList queues userID newPosition None
  = ([Bot.Requested (Bot.moderateMoveDJ userID newPosition)],
     if queues (Bot.moderateMoveDJ userID newPosition)
     then inr TypeError else inl tt).
Proof.
  unfold Bot.moveDjInWaitList, Bot.transport. cbn.
  now destruct (queues (Bot.moderateMoveDJ userID newPosition)).
Qed.

End ActionLemmas.

(** C8. Moving a DJ in the wait list without a completion callback, when
    the vendor client queues the request: the request is made, and its
    completion throws a TypeError, because the completion function calls the
    missing callback without testing it.  Force skip without a callback, on
    the same vendor client, makes its request and ends normally. *)
Theorem move_dj_without_callback_throws :
  Bot.moveDjInWaitList (fun _ => true) (VStr "idA") (VNum 0) None
  = ([Bot.Requested (Bot.moderateMoveDJ (VStr "idA") (VNum 0))], inr TypeError) /\
  Bot.forceSkip (fun _ => true) None
  = ([Bot.Requested Bot.moderateForceSkip], inl tt).
Proof. split; reflexivity. Qed.

(** ** Command router *)

Lemma bind_ret {E A B : Type} (a : A) (k : A -> Trace.t E B) :
  Trace.bind (Trace.ret a) k = k a.
Proof. unfold Trace.bind, Trace.ret. now destruct (k a). Qed.

Lemma commandHandler_runs commands cfg chatEvent token :
  get chatEvent "command" = VStr token -> token <> ""%string ->
  commandHandler commands cfg chatEvent
  = run_commands (commandName_for cfg token) chatEvent 0 commands.
Proof.
  intros Hc Hne. unfold commandHandler, commandName_for. rewrite Hc. cbn [truthy].
  apply String.eqb_neq in Hne. rewrite Hne. cbn [negb].
  destruct (areCommandsCaseSensitive cfg); cbn [negb lower lift];
    now rewrite bind_ret.
Qed.

Section Gate.

Variables (commandName : value) (chatEvent : object) (userLevel : Z).
Hypothesis user_has_level :
  member (get chatEvent "userRole") "level" = inl (VNum userLevel).

(** One iteration ends normally and only calls functions of its command. *)
Lemma loop_body_log (i : nat) (command : Command) :
  snd (loop_body commandName chatEvent i command) = inl tt /\
  forall inv, In inv (Trace.log (loop_body commandName chatEvent i command)) ->
              index_of inv = i.
Proof.
  unfold loop_body. destruct (triggered _ _); [|now split].
  destruct (truthy (minimumRole command)) eqn:Hmin.
  - rewrite user_has_level. cbn [lift]. rewrite bind_ret.
    destruct (minimumRole command); try discriminate;
      cbn [member lift]; rewrite bind_ret;
      (destruct (less_than _ _);
       [destruct (insufficientPermissionsHandler command)|]);
      (split; [reflexivity|]);
      cbn; intros inv Hin; intuition (subst; reflexivity).
  - split; [reflexivity|]. cbn. intros inv Hin. intuition (subst; reflexivity).
Qed.

Lemma loop_body_normal (i : nat) (command : Command) :
  snd (loop_body commandName chatEvent i command) = inl tt /\
  forall inv, index_of inv <> i ->
              calls inv (loop_body commandName chatEvent i command) = 0%nat.
Proof.
  destruct (loop_body_log i command) as [Hok Hlog]. split; [exact Hok|].
  intros inv Hne. unfold calls. apply count_occ_not_In.
  intros Hin. apply Hne. now apply Hlog.
Qed.

(** The whole loop ends normally, and calls a function of [commands[j]] as
    often as the iteration on [commands[j]] does. *)
Lemma run_commands_calls (commands : list Command) :
  forall i0 : nat,
    snd (run_commands commandName chatEvent i0 commands) = inl tt /\
    forall inv,
      calls inv (run_commands commandName chatEvent i0 commands)
      = match nth_error commands (index_of inv - i0) with
        | Some command =>
            if (i0 <=? index_of inv)%nat
            then calls inv (loop_body commandName chatEvent (index_of inv) command)
            else 0%nat
        | None => 0%nat
        end.
Proof.
  induction commands as [|command rest IH]; intros i0.
  - split; [reflexivity|]. intros inv. cbn.
    now destruct (index_of inv - i0)%nat.
  - destruct (IH (S i0)) as [Hok Hcalls].
    destruct (loop_body_normal i0 command) as [Hbody Hother].
    cbn [run_commands]. unfold calls, Trace.bind, Trace.log in *.
    destruct (loop_body commandName chatEvent i0 command) as [log1 r1] eqn:Hlb.
    cbn in Hbody. subst r1. cbn [fst] in Hother.
    destruct (run_commands commandName chatEvent (S i0) rest) as [log2 r2].
    cbn in Hok. subst r2. cbn [fst snd]. split; [reflexivity|].
    intros inv. rewrite count_occ_app. specialize (Hcalls inv). cbn [fst] in Hcalls.
    rewrite Hcalls.
    destruct (Nat.lt_trichotomy (index_of inv) i0) as [Hlt|[Heq|Hgt]].
    + rewrite (Hother inv) by lia.
      replace (index_of inv - i0)%nat with 0%nat by lia. cbn [nth_error].
      replace (i0 <=? index_of inv)%nat with false
        by (symmetry; apply Nat.leb_gt; lia).
      replace (S i0 <=? index_of inv)%nat with false
        by (symmetry; apply Nat.leb_gt; lia).
      now destruct (nth_error rest _).
    + replace (index_of inv - i0)%nat with 0%nat by lia. cbn [nth_error].
      replace (i0 <=? index_of inv)%nat with true
        by (symmetry; apply Nat.leb_le; lia).
      replace (S i0 <=? index_of inv)%nat with false
        by (symmetry; apply Nat.leb_gt; lia).
      rewrite Heq, Hlb. cbn [fst].
      destruct (nth_error rest (i0 - S i0)); apply Nat.add_0_r.
    + rewrite (Hother inv) by lia.
      replace (index_of inv - i0)%nat with (S (index_of inv - S i0)) by lia.
      cbn [nth_error].
      replace (i0 <=? index_of inv)%nat with true
        by (symmetry; apply Nat.leb_le; lia).
      replace (S i0 <=? index_of inv)%nat with true
        by (symmetry; apply Nat.leb_le; lia).
      reflexivity.
Qed.

Lemma run_commands_from_0 (commands : list Command) (i : nat) command inv :
  nth_error commands i = Some command -> index_of inv = i ->
  calls inv (run_commands commandName chatEvent 0 commands)
  = calls inv (loop_body commandName chatEvent i command).
Proof.
  intros Hi Hinv. destruct (run_commands_calls commands 0%nat) as [_ H].
  rewrite H, Nat.sub_0_r, Hinv, Hi. reflexivity.
Qed.

End Gate.

Lemma gated_loop_body commandName chatEvent userLevel minimumLevel i command :
  member (get chatEvent "userRole") "level" = inl (VNum userLevel) ->
  triggered commandName command = true ->
  truthy (minimumRole command) = true ->
  member (minimumRole command) "level" = inl (VNum minimumLevel) ->
  loop_body commandName chatEvent i command
  = if userLevel <? minimumLevel
    then if insufficientPermissionsHandler command
         then Trace.emit (insufficientPermissions i) else Trace.ret tt
    else Trace.emit (handler i).
Proof.
  intros Hu Ht Hm Hl. unfold loop_body. rewrite Ht, Hm, Hu, Hl.
  cbn [lift]. now rewrite !bind_ret.
Qed.

Lemma calls_emit_same (inv : invocation) : calls inv (Trace.emit inv) = 1%nat.
Proof. unfold calls. cbn. now destruct (invocation_eq_dec inv inv). Qed.

Lemma calls_emit_other (inv inv' : invocation) :
  inv <> inv' -> calls inv (Trace.emit inv') = 0%nat.
Proof.
  intros H. unfold calls. cbn.
  destruct (invocation_eq_dec inv' inv); [congruence|reflexivity].
Qed.

(** C6. Role gate of the command router.  For a chat event with a
    non-empty command token, sent by a user whose role has a numeric level,
    the router ends normally, and for every registered command that the
    token triggers and that declares a minimum role with a numeric level:
    below that level the permission hook of the command is called once when
    one is registered (not at all otherwise) and its handler is not called;
    at or above that level its handler is called once and the permission
    hook is not called.  This holds for the command at every index, so the
    commands after a gated one are still matched. *)
Theorem command_role_gate :
  forall (commands : list Command) (cfg : Config) (chatEvent : object)
         (token : string) (userLevel : Z),
    get chatEvent "command" = VStr token ->
    token <> ""%string ->
    member (get chatEvent "userRole") "level" = inl (VNum userLevel) ->
    Trace.raised (commandHandler commands cfg chatEvent) = None /\
    forall (i : nat) (command : Command) (minimumLevel : Z),
      nth_error commands i = Some command ->
      triggered (commandName_for cfg token) command = true ->
      truthy (minimumRole command) = true ->
      member (minimumRole command) "level" = inl (VNum minimumLevel) ->
      (userLevel < minimumLevel ->
       calls (insufficientPermissions i) (commandHandler commands cfg chatEvent)
       = (if insufficientPermissionsHandler command then 1 else 0)%nat /\
       calls (handler i) (commandHandler commands cfg chatEvent) = 0%nat) /\
      (minimumLevel <= userLevel ->
       calls (handler i) (commandHandler commands cfg chatEvent) = 1%nat /\
       calls (insufficientPermissions i) (commandHandler commands cfg chatEvent)
       = 0%nat).
Proof.
  intros commands cfg chatEvent token userLevel Hc Hne Hu.
  rewrite (commandHandler_runs commands cfg chatEvent token Hc Hne).
  split.
  - destruct (run_commands_calls (commandName_for cfg token) chatEvent
                userLevel Hu commands 0%nat) as [Hok _].
    unfold Trace.raised. now rewrite Hok.
  - intros i command minimumLevel Hi Ht Hm Hl.
    rewrite !(run_commands_from_0 _ _ _ Hu commands i command) by
      (assumption || reflexivity).
    rewrite (gated_loop_body _ _ _ _ i command Hu Ht Hm Hl).
    split; intros Hlevel.
    + apply Z.ltb_lt in Hlevel. rewrite Hlevel.
      destruct (insufficientPermissionsHandler command).
      * split; [apply calls_emit_same|apply calls_emit_other; discriminate].
      * split; reflexivity.
    + apply Z.ltb_ge in Hlevel. rewrite Hlevel.
      split; [apply calls_emit_same|apply calls_emit_other; discriminate].
Qed.

Lemma command_role_gate_witness :
  calls (insufficientPermissions 0)
        (commandHandler Sample.commands Sample.cfg
           (Sample.translated (Sample.chat "c9" Sample.vip "!skip"))) = 1%nat /\
  calls (handler 0)
        (commandHandler Sample.commands Sample.cfg
           (Sample.translated (Sample.chat "c9" Sample.vip "!skip"))) = 0%nat.
Proof.
  refine (proj1 (proj2 (command_role_gate Sample.commands Sample.cfg
                          (Sample.translated (Sample.chat "c9" Sample.vip "!skip"))
                          "skip" 2 _ _ _)
                   0%nat Sample.skip_for_mods 3 _ _ _ _) _);
    try reflexivity; discriminate.
Defined.

(** The same command sent by a moderator reaches both handlers. *)
Lemma skip_by_mod_example :
  commandHandler Sample.commands Sample.cfg
    (Sample.translated (Sample.chat "c9" Sample.mod_user "!skip"))
  = ([handler 0; handler 1], inl tt).
Proof. reflexivity. Qed.

Lemma skip_by_vip_example :
  commandHandler Sample.commands Sample.cfg
    (Sample.translated (Sample.chat "c9" Sample.vip "!SKIP now"))
  = ([insufficientPermissions 0; handler 1], inl tt).
Proof. reflexivity. Qed.

(** *** Letter case of the triggers *)

(** C7 as stated fails.  A trigger registered with a capital letter is
    matched by no command token when commands are not case-sensitive:
    neither by "skip", which equals "Skip" up to letter case, nor by "Skip"
    itself, and the handler of the command is not called. *)
Lemma capital_trigger_is_never_matched :
  areCommandsCaseSensitive Sample.cfg = false /\
  toLowerCase "skip" = toLowerCase "Skip" /\
  In (VStr "Skip") (triggers Sample.capital_skip) /\
  triggered (commandName_for Sample.cfg "skip") Sample.capital_skip = false /\
  commandHandler [Sample.capital_skip] Sample.cfg
    (Sample.translated (Sample.chat "c9" Sample.mod_user "!skip")) = ([], inl tt) /\
  commandHandler [Sample.capital_skip] Sample.cfg
    (Sample.translated (Sample.chat "c9" Sample.mod_user "!Skip")) = ([], inl tt).
Proof. repeat split; try reflexivity. now left. Qed.

(** C7 (amended). When commands are not case-sensitive, the command token
    is put in lower case and then compared as it is with the registered
    triggers.  So for every registered trigger that is in lower case
    already and every command token that equals it up to letter case, the
    command is a match; when it declares no minimum role its handler is
    called once. *)
Theorem lowercase_trigger_matches_ignoring_case :
  forall (commands : list Command) (cfg : Config) (chatEvent : object)
         (token trigger : string) (userLevel : Z) (i : nat) (command : Command),
    areCommandsCaseSensitive cfg = false ->
    get chatEvent "command" = VStr token ->
    token <> ""%string ->
    member (get chatEvent "userRole") "level" = inl (VNum userLevel) ->
    nth_error commands i = Some command ->
    In (VStr trigger) (triggers command) ->
    toLowerCase trigger = trigger ->
    toLowerCase token = toLowerCase trigger ->
    triggered (commandName_for cfg token) command = true /\
    (truthy (minimumRole command) = false ->
     calls (handler i) (commandHandler commands cfg chatEvent) = 1%nat).
Proof.
  intros commands cfg chatEvent token trigger userLevel i command
         Hcfg Hc Hne Hu Hi Hin Hlow Heq.
  assert (Ht : triggered (commandName_for cfg token) command = true).
  { unfold triggered, commandName_for. rewrite Hcfg, Heq, Hlow.
    apply Z.leb_le. now apply indexOf_present. }
  split; [exact Ht|]. intros Hmin.
  rewrite (commandHandler_runs commands cfg chatEvent token Hc Hne).
  rewrite (run_commands_from_0 _ _ _ Hu commands i command) by
    (assumption || reflexivity).
  unfold loop_body. rewrite Ht, Hmin. apply calls_emit_same.
Qed.

Lemma lowercase_trigger_matches_ignoring_case_witness :
  triggered (commandName_for Sample.cfg "SKIP") Sample.skip_for_all = true /\
  calls (handler 1)
        (commandHandler Sample.commands Sample.cfg
           (Sample.translated (Sample.chat "c9" Sample.vip "!SKIP now")))
  = 1%nat.
Proof.
  refine (let H := lowercase_trigger_matches_ignoring_case
                     Sample.commands Sample.cfg
                     (Sample.translated (Sample.chat "c9" Sample.vip "!SKIP now"))
                     "SKIP" "skip" 2 1%nat Sample.skip_for_all
                     _ _ _ _ _ _ _ _ in
          conj (proj1 H) (proj2 H eq_refl));
    try reflexivity; [discriminate|now left].
Defined.

Lemma play_history_bounded_most_recent_first_witness :
  exists s',
    deliver_all Sample.cfg 100
      (map ADVANCE [Sample.advance "idA" "t2"; Sample.advance "idB" "t3"])
      Sample.playing_room = Normal s' /\
    Z.of_nat (List.length (playHistory s'))
    <= numberOfPlayedSongsToStore Sample.cfg /\
    playHistory s'
    = firstn (Z.to_nat (numberOfPlayedSongsToStore Sample.cfg))
        (rev (map new_play [Sample.advance "idA" "t2"; Sample.advance "idB" "t3"])
         ++ playHistory Sample.playing_room).
Proof.
  apply (play_history_bounded_most_recent_first Sample.cfg 100
           [Sample.advance "idA" "t2"; Sample.advance "idB" "t3"]
           Sample.playing_room); [cbn; lia|discriminate].
Defined.

Lemma grab_idempotent_and_monotone_witness :
  onGrab (Sample.grab_by "idA") Sample.grabbed_room = Normal Sample.grabbed_room /\
  match nth_error
          (playHistory
             (state_of (deliver Sample.cfg 100
                          (ADVANCE (Sample.advance "idB" "t2"))
                          Sample.grabbed_room)))
          (0 + shift (ADVANCE (Sample.advance "idB" "t2"))) with
  | Some p' => keeps_grabs Sample.grabbed_play p'
  | None => exists event, ADVANCE (Sample.advance "idB" "t2") = ADVANCE event
  end.
Proof.
  split.
  - apply (proj1 (grab_idempotent_and_monotone Sample.grabbed_room)
             (Sample.grab_by "idA") Sample.grabbed_play []);
      [reflexivity|reflexivity|now left].
  - apply (proj2 (grab_idempotent_and_monotone Sample.grabbed_room)
             Sample.cfg 100 (ADVANCE (Sample.advance "idB" "t2")) 0%nat).
    reflexivity.
Defined.

Lemma grab_and_vote_need_a_current_play_witness :
  (onGrab (Sample.grab_by "idA") Sample.empty_room
   = Raised TypeError Sample.empty_room /\
   onVote (Sample.grab_by "idA") Sample.empty_room
   = Raised TypeError Sample.empty_room) /\
  ((exists s', onGrab (Sample.grab_by "idA") Sample.playing_room = Normal s') /\
   (exists s', onVote (Sample.grab_by "idA") Sample.playing_room = Normal s')) /\
  playHistory (init (fun a _ => a) 100 None (Some Sample.userA)
                 [Sample.userA] 30) = [].
Proof.
  split; [|split].
  - apply (proj1 grab_and_vote_need_a_current_play); reflexivity.
  - apply (proj1 (proj2 grab_and_vote_need_a_current_play)); discriminate.
  - apply (proj2 (proj2 grab_and_vote_need_a_current_play)). now left.
Defined.

(** * Further properties *)

(** ** Chat history under Chat events *)

Section Chat.

Variable cfg : Config.
Hypothesis max_nonneg : 0 <= numberOfChatEventsToStore cfg.

Let max := Z.to_nat (numberOfChatEventsToStore cfg).

Lemma onChat_step (now : Z) (event : object) (s : RoomState) :
  exists s', onChat cfg now event s = Normal s' /\
             chatHistory s' = firstn max (new_chat now event :: chatHistory s).
Proof.
  unfold onChat, set_length. cbn [chatHistory with_chatHistory].
  fold (new_chat now event).
  destruct (Z.of_nat (List.length (new_chat now event :: chatHistory s))
            >? numberOfChatEventsToStore cfg) eqn:Hlen.
  - replace (numberOfChatEventsToStore cfg <? 0) with false
      by (symmetry; apply Z.ltb_ge; exact max_nonneg).
    eexists. split; reflexivity.
  - eexists. split; [reflexivity|]. cbn [chatHistory with_chatHistory].
    symmetry. apply firstn_all2. subst max.
    rewrite Z.gtb_ltb in Hlen. apply Z.ltb_ge in Hlen. lia.
Qed.

Lemma chat_sequence (now : Z) (events : list object) :
  forall (event : object) (s : RoomState),
  exists s', deliver_all cfg now (map CHAT (event :: events)) s = Normal s' /\
             chatHistory s' =
               firstn max (rev (map (new_chat now) (event :: events))
                           ++ chatHistory s).
Proof.
  induction events as [|e2 events IH]; intros event s.
  - destruct (onChat_step now event s) as (s' & Hs & Hh).
    exists s'. cbn. rewrite Hs. split; [reflexivity|]. exact Hh.
  - destruct (onChat_step now event s) as (s1 & Hs & Hh).
    destruct (IH e2 s1) as (s' & Hrun & Hh').
    exists s'. split.
    + change (map CHAT (event :: e2 :: events))
        with (CHAT event :: map CHAT (e2 :: events)).
      cbn [deliver_all deliver]. rewrite Hs. exact Hrun.
    + rewrite Hh', Hh, firstn_app_firstn.
      change (map (new_chat now) (event :: e2 :: events))
        with (new_chat now event :: map (new_chat now) (e2 :: events)).
      cbn [rev]. now rewrite <- app_assoc.
Qed.

End Chat.

(** X1. For every non-empty sequence of Chat events delivered to the
    tracker with a non-negative [numberOfChatEventsToStore], every handler
    returns normally, the chat history is no longer than that maximum, and
    it is the chat objects of the events, the most recent one first,
    followed by the messages that were there before, cut to the maximum. *)
Theorem chat_history_bounded_most_recent_first :
  forall (cfg : Config) (now : Z) (events : list object) (s : RoomState),
    0 <= numberOfChatEventsToStore cfg ->
    events <> [] ->
    exists s',
      deliver_all cfg now (map CHAT events) s = Normal s' /\
      Z.of_nat (List.length (chatHistory s')) <= numberOfChatEventsToStore cfg /\
      chatHistory s' =
        firstn (Z.to_nat (numberOfChatEventsToStore cfg))
               (rev (map (new_chat now) events) ++ chatHistory s).
Proof.
  intros cfg now events s Hmax Hne.
  destruct events as [|event events]; [congruence|].
  destruct (chat_sequence cfg Hmax now events event s) as (s' & Hrun & Hh).
  exists s'. split; [exact Hrun|]. split; [|exact Hh].
  rewrite Hh.
  pose proof (firstn_le_length (Z.to_nat (numberOfChatEventsToStore cfg))
                (rev (map (new_chat now) (event :: events)) ++ chatHistory s)).
  lia.
Qed.

Lemma chat_history_bounded_most_recent_first_witness :
  exists s',
    deliver_all Sample.cfg 100
      (map CHAT [Sample.translated (Sample.chat "M1" Sample.userA "one");
                 Sample.translated (Sample.chat "M2" Sample.userB "two")])
      Sample.playing_room = Normal s' /\
    Z.of_nat (List.length (chatHistory s'))
    <= numberOfChatEventsToStore Sample.cfg /\
    chatHistory s'
    = firstn (Z.to_nat (numberOfChatEventsToStore Sample.cfg))
        (rev (map (new_chat 100)
                [Sample.translated (Sample.chat "M1" Sample.userA "one");
                 Sample.translated (Sample.chat "M2" Sample.userB "two")])
         ++ chatHistory Sample.playing_room).
Proof.
  apply (chat_history_bounded_most_recent_first Sample.cfg 100
           [Sample.translated (Sample.chat "M1" Sample.userA "one");
            Sample.translated (Sample.chat "M2" Sample.userB "two")]
           Sample.playing_room); [cbn; lia|discriminate].
Defined.

(** ** Degenerate maxima *)

(** X2. With [numberOfPlayedSongsToStore] set to 0 an Advance event returns
    normally and leaves the play history empty, so that every Grab and
    every Vote event that follows throws a TypeError. *)
Theorem no_current_play_when_the_maximum_is_zero :
  forall (cfg : Config) (advance : object) (s : RoomState),
    numberOfPlayedSongsToStore cfg = 0 ->
    exists s',
      onAdvance cfg advance s = Normal s' /\
      playHistory s' = [] /\
      forall event : object,
        onGrab event s' = Raised TypeError s' /\
        onVote event s' = Raised TypeError s'.
Proof.
  intros cfg advance s Hmax.
  assert (H0 : 0 <= numberOfPlayedSongsToStore cfg) by lia.
  destruct (onAdvance_step cfg H0 advance s) as (s' & Hs & Hh).
  rewrite Hmax in Hh. cbn in Hh.
  exists s'. split; [exact Hs|]. split; [exact Hh|].
  intros event. unfold onGrab, onVote. now rewrite Hh.
Qed.

Lemma no_current_play_when_the_maximum_is_zero_witness :
  exists s',
    onAdvance {| areCommandsCaseSensitive := false;
                 numberOfChatEventsToStore := 50;
                 numberOfPlayedSongsToStore := 0 |}
              (Sample.advance "idA" "track1") Sample.empty_room = Normal s' /\
    playHistory s' = [] /\
    forall event : object,
      onGrab event s' = Raised TypeError s' /\
      onVote event s' = Raised TypeError s'.
Proof.
  apply (no_current_play_when_the_maximum_is_zero
           {| areCommandsCaseSensitive := false;
              numberOfChatEventsToStore := 50;
              numberOfPlayedSongsToStore := 0 |}
           (Sample.advance "idA" "track1") Sample.empty_room).
  reflexivity.
Defined.

(** X3. With a negative maximum, the Advance handler and the Chat handler
    throw a RangeError, and the entry they had put in front of the history
    before cutting it stays there. *)
Theorem negative_maximum_raises_after_the_insertion :
  forall (cfg : Config) (now : Z) (event : object) (s : RoomState),
    (numberOfPlayedSongsToStore cfg < 0 ->
     onAdvance cfg event s
     = Raised RangeError (with_playHistory (new_play event :: playHistory s) s)) /\
    (numberOfChatEventsToStore cfg < 0 ->
     onChat cfg now event s
     = Raised RangeError
         (with_chatHistory (new_chat now event :: chatHistory s) s)).
Proof.
  intros cfg now event s. split; intros Hneg.
  - unfold onAdvance, set_length. cbn [playHistory with_playHistory].
    replace (_ >? _) with true
      by (symmetry; rewrite Z.gtb_ltb; apply Z.ltb_lt; cbn [List.length]; lia).
    now replace (_ <? 0) with true by (symmetry; apply Z.ltb_lt; exact Hneg).
  - unfold onChat, set_length. cbn [chatHistory with_chatHistory].
    fold (new_chat now event).
    replace (_ >? _) with true
      by (symmetry; rewrite Z.gtb_ltb; apply Z.ltb_lt; cbn [List.length]; lia).
    now replace (_ <? 0) with true by (symmetry; apply Z.ltb_lt; exact Hneg).
Qed.

Lemma negative_maximum_raises_after_the_insertion_witness :
  onAdvance {| areCommandsCaseSensitive := false;
               numberOfChatEventsToStore := -1;
               numberOfPlayedSongsToStore := -1 |}
            (Sample.advance "idA" "track1") Sample.empty_room
  = Raised RangeError
      (with_playHistory
         (new_play (Sample.advance "idA" "track1")
          :: playHistory Sample.empty_room) Sample.empty_room) /\
  onChat {| areCommandsCaseSensitive := false;
            numberOfChatEventsToStore := -1;
            numberOfPlayedSongsToStore := -1 |}
         100 (Sample.translated (Sample.chat "M1" Sample.userA "one"))
         Sample.empty_room
  = Raised RangeError
      (with_chatHistory
         (new_chat 100 (Sample.translated (Sample.chat "M1" Sample.userA "one"))
          :: chatHistory Sample.empty_room) Sample.empty_room).
Proof.
  split.
  - apply (proj1 (negative_maximum_raises_after_the_insertion
                    {| areCommandsCaseSensitive := false;
                       numberOfChatEventsToStore := -1;
                       numberOfPlayedSongsToStore := -1 |}
                    100 (Sample.advance "idA" "track1") Sample.empty_room)).
    cbn. lia.
  - apply (proj2 (negative_maximum_raises_after_the_insertion
                    {| areCommandsCaseSensitive := false;
                       numberOfChatEventsToStore := -1;
                       numberOfPlayedSongsToStore := -1 |}
                    100 (Sample.translated (Sample.chat "M1" Sample.userA "one"))
                    Sample.empty_room)).
    cbn. lia.
Defined.

(** ** Chat deletion, in general *)

Lemma with_chatHistory_same (s : RoomState) :
  with_chatHistory (chatHistory s) s = s.
Proof. now destruct s. Qed.

Lemma cascade_content now event uid l :
  map content (fst (cascade now event uid l)) = map content l.
Proof.
  induction l as [|c l IH]; cbn; [reflexivity|].
  destruct (_ && _); [|reflexivity].
  destruct (cascade now event uid l) as [rest' deleted]. cbn in *.
  now rewrite IH.
Qed.

Lemma delete_from_content now event l :
  map content (fst (delete_from now event l)) = map content l.
Proof.
  induction l as [|c l IH]; cbn; [reflexivity|].
  destruct (strict_equal _ _).
  - pose proof (cascade_content now event
                  (StateTracker.userID (mark_deleted now event c)) l) as H.
    destruct (cascade _ _ _ l) as [rest' deleted]. cbn in *. now rewrite H.
  - destruct (delete_from now event l) as [rest' deleted]. cbn in *.
    now rewrite IH.
Qed.

(** X4. A Chat Delete event removes nothing: the chat history keeps its
    length, and every message keeps its chatID, text, timestamp, type,
    author and mute flag, at the same place; the play history, the users,
    the wait list and the media queue are untouched. *)
Theorem chat_delete_is_in_place :
  forall (now : Z) (event : object) (s : RoomState),
    let s' := fst (onChatDelete now event s) in
    List.length (chatHistory s') = List.length (chatHistory s) /\
    map content (chatHistory s') = map content (chatHistory s) /\
    playHistory s' = playHistory s /\
    usersInRoom s' = usersInRoom s /\
    waitList s' = waitList s /\
    mediaQueue s' = mediaQueue s.
Proof.
  intros now event s. unfold onChatDelete.
  pose proof (delete_from_content now event (chatHistory s)) as H.
  destruct (delete_from now event (chatHistory s)) as [history deleted].
  cbn in *. split; [|now repeat split].
  now rewrite <- (length_map content), H, length_map.
Qed.

Lemma delete_from_unknown now event l :
  (forall c, In c l -> strict_equal (chatID c) (get event "chatID") = false) ->
  delete_from now event l = (l, []).
Proof.
  induction l as [|c l IH]; intros H; cbn; [reflexivity|].
  rewrite (H c (or_introl eq_refl)), IH; [reflexivity|].
  intros x Hx. apply H. now right.
Qed.

(** X5. A Chat Delete event whose chatID is the chatID of no stored
    message changes nothing, and its list of deleted messages is empty. *)
Theorem chat_delete_of_unknown_message :
  forall (now : Z) (event : object) (s : RoomState),
    (forall c, In c (chatHistory s) ->
               strict_equal (chatID c) (get event "chatID") = false) ->
    onChatDelete now event s = (s, []).
Proof.
  intros now event s H. unfold onChatDelete.
  rewrite (delete_from_unknown now event _ H).
  now rewrite with_chatHistory_same.
Qed.

Lemma chat_delete_of_unknown_message_witness :
  onChatDelete 105
    [("chatID", VStr "M9"); ("deleterID", VStr "mod7")]
    (state_of Sample.four_messages)
  = (state_of Sample.four_messages, []).
Proof.
  apply (chat_delete_of_unknown_message 105
           [("chatID", VStr "M9"); ("deleterID", VStr "mod7")]
           (state_of Sample.four_messages)).
  intros c H. cbn in H.
  repeat (destruct H as [<-|H]; [reflexivity|]). destruct H.
Defined.

Lemma cascade_run now event uid run rest :
  (forall x, In x run -> cascades uid x = true) ->
  match rest with [] => True | y :: _ => cascades uid y = false end ->
  cascade now event uid (run ++ rest)
  = (map (mark_deleted now event) run ++ rest, map (mark_deleted now event) run).
Proof.
  intros Hrun Hrest. induction run as [|c run IH]; cbn.
  - destruct rest as [|y rest]; [reflexivity|].
    cbn. unfold cascades in Hrest. now rewrite Hrest.
  - pose proof (Hrun c (or_introl eq_refl)) as Hc. unfold cascades in Hc.
    rewrite Hc, IH; [reflexivity|]. intros x Hx. apply Hrun. now right.
Qed.

(** X6. What a Chat Delete event marks.  Let the history be [pre], then
    the first message [c] with the chatID of the event, then a run of
    messages that all have the author of [c] and are not yet deleted, then
    [rest], which is empty or starts with a message of another author or
    with one already deleted.  The handler marks [c] (deleted already or
    not) and the whole run, leaves [pre] and [rest] as they are, and reports
    [c] and the run, in that order, as the deleted messages. *)
Theorem chat_delete_marks_the_run :
  forall (now : Z) (event : object) (s : RoomState)
         (pre : list ChatObj) (c : ChatObj) (run rest : list ChatObj),
    chatHistory s = pre ++ c :: run ++ rest ->
    (forall x, In x pre ->
               strict_equal (chatID x) (get event "chatID") = false) ->
    strict_equal (chatID c) (get event "chatID") = true ->
    (forall x, In x run -> cascades (userID c) x = true) ->
    match rest with [] => True | y :: _ => cascades (userID c) y = false end ->
    onChatDelete now event s
    = (with_chatHistory
         (pre ++ map (mark_deleted now event) (c :: run) ++ rest) s,
       map (mark_deleted now event) (c :: run)).
Proof.
  intros now event s pre c run rest Hh Hpre Hc Hrun Hrest.
  unfold onChatDelete. rewrite Hh. clear Hh.
  assert (H : delete_from now event (pre ++ c :: run ++ rest)
              = (pre ++ map (mark_deleted now event) (c :: run) ++ rest,
                 map (mark_deleted now event) (c :: run))).
  { induction pre as [|x pre IH]; cbn.
    - rewrite Hc.
      change (StateTracker.userID (mark_deleted now event c))
        with (StateTracker.userID c).
      now rewrite (cascade_run now event _ run rest Hrun Hrest).
    - rewrite (Hpre x (or_introl eq_refl)), IH; [reflexivity|].
      intros y Hy. apply Hpre. now right. }
  now rewrite H.
Qed.

Lemma chat_delete_marks_the_run_witness :
  match Sample.four_messages with
  | Normal s =>
      match chatHistory s with
      | [m4; m3; m2; m1] =>
          onChatDelete 105 [("chatID", VStr "M2")] s
          = (with_chatHistory
               ([m4; m3]
                ++ map (mark_deleted 105 [("chatID", VStr "M2")]) [m2; m1]
                ++ []) s,
             map (mark_deleted 105 [("chatID", VStr "M2")]) [m2; m1])
      | _ => False
      end
  | Raised _ _ => False
  end.
Proof.
  cbv beta iota delta [Sample.four_messages Sample.then_chat].
  cbn -[onChatDelete mark_deleted map app].
  apply (chat_delete_marks_the_run 105 [("chatID", VStr "M2")]);
    try reflexivity.
  - intros x [<-|[<-|[]]]; reflexivity.
  - intros x [<-|[]]; reflexivity.
Defined.

Lemma cascade_again t1 t2 event uid l :
  cascade t2 event uid (fst (cascade t1 event uid l))
  = (fst (cascade t1 event uid l), []).
Proof.
  destruct l as [|c l]; cbn; [reflexivity|].
  destruct (strict_equal (StateTracker.userID c) uid
            && negb (truthy (isDeleted c))) eqn:Hc.
  - destruct (cascade t1 event uid l) as [rest' deleted]. cbn.
    now rewrite andb_false_r.
  - cbn. now rewrite Hc.
Qed.

Lemma delete_from_again t1 t2 event l :
  snd (delete_from t2 event (fst (delete_from t1 event l)))
  = map (mark_deleted t2 event) (firstn 1 (snd (delete_from t1 event l))).
Proof.
  induction l as [|c l IH]; cbn; [reflexivity|].
  destruct (strict_equal (chatID c) (get event "chatID")) eqn:Hc.
  - pose proof (cascade_again t1 t2 event
                  (StateTracker.userID (mark_deleted t1 event c)) l) as H.
    destruct (cascade t1 event _ l) as [rest' deleted]. cbn in *.
    rewrite Hc.
    change (StateTracker.userID (mark_deleted t2 event (mark_deleted t1 event c)))
      with (StateTracker.userID (mark_deleted t1 event c)).
    now rewrite H.
  - destruct (delete_from t1 event l) as [rest' deleted] eqn:Hd. cbn in *.
    rewrite Hc.
    destruct (delete_from t2 event rest') as [rest'' deleted'']. cbn in *.
    exact IH.
Qed.

(** X7. When the same Chat Delete event is delivered a second time, its
    list of deleted messages is the named message alone, marked again with
    the new time: the same-author messages marked by the first delivery are
    not reported again, and nothing is reported when the first delivery
    found no message. *)
Theorem chat_delete_again_reports_the_named_message_only :
  forall (t1 t2 : Z) (event : object) (s : RoomState),
    snd (onChatDelete t2 event (fst (onChatDelete t1 event s)))
    = map (mark_deleted t2 event) (firstn 1 (snd (onChatDelete t1 event s))).
Proof.
  intros t1 t2 event s. unfold onChatDelete.
  pose proof (delete_from_again t1 t2 event (chatHistory s)) as H.
  destruct (delete_from t1 event (chatHistory s)) as [h1 d1]. cbn in *.
  destruct (delete_from t2 event h1) as [h2 d2]. cbn in *. exact H.
Qed.

(** ** Users in the room *)

(** [_findUser] returns the first user whose userID is the one sought. *)
Lemma findUser_find (users : list object) (id : value) :
  _findUser users id = find (fun u => strict_equal (get u "userID") id) users.
Proof.
  unfold _findUser. induction users as [|u users IH]; cbn [_findUserIndex find].
  - reflexivity.
  - destruct (strict_equal (get u "userID") id); [reflexivity|].
    destruct (_findUserIndex users id <? 0) eqn:Hk.
    + rewrite <- IH. apply Z.ltb_lt in Hk.
      replace (0 <=? _findUserIndex users id) with false
        by (symmetry; apply Z.leb_gt; exact Hk).
      reflexivity.
    + apply Z.ltb_ge in Hk. rewrite <- IH.
      replace (0 <=? _findUserIndex users id + 1) with true
        by (symmetry; apply Z.leb_le; lia).
      replace (0 <=? _findUserIndex users id) with true
        by (symmetry; apply Z.leb_le; lia).
      replace (Z.to_nat (_findUserIndex users id + 1))
        with (S (Z.to_nat (_findUserIndex users id))) by lia.
      reflexivity.
Qed.

Lemma find_user_absent (users : list object) (id : value) :
  ~ In id (ids users) ->
  find (fun u => strict_equal (get u "userID") id) users = None.
Proof.
  intros Hid. induction users as [|u users IH]; cbn; [reflexivity|].
  destruct (strict_equal (get u "userID") id) eqn:Hu.
  - exfalso. apply Hid. left. now apply strict_equal_eq.
  - apply IH. intros H. apply Hid. now right.
Qed.

Lemma find_user_present (users : list object) (id : value) :
  is_primitive id = true -> In id (ids users) ->
  exists u, find (fun u => strict_equal (get u "userID") id) users = Some u /\
            get u "userID" = id.
Proof.
  intros Hp. induction users as [|u users IH]; cbn; [intros []|].
  destruct (strict_equal (get u "userID") id) eqn:Hu.
  - intros _. exists u. split; [reflexivity|now apply strict_equal_eq].
  - intros [H|H]; [|now apply IH].
    rewrite H, strict_equal_refl in Hu by assumption. discriminate.
Qed.

Lemma find_user_cases (users : list object) (id : value) :
  is_primitive id = true ->
  (exists u, find (fun u => strict_equal (get u "userID") id) users = Some u /\
             get u "userID" = id /\ In id (ids users)) \/
  (find (fun u => strict_equal (get u "userID") id) users = None /\
   ~ In id (ids users)).
Proof.
  intros Hp.
  destruct (find (fun u => strict_equal (get u "userID") id) users) as [u|] eqn:Hf.
  - left. exists u. destruct (find_some _ _ Hf) as [Hin Hu].
    apply strict_equal_eq in Hu. repeat split; [assumption|].
    unfold ids. apply in_map_iff. eauto.
  - right. split; [reflexivity|]. intros Hin.
    destruct (find_user_present users id Hp Hin) as (u & Hu & _). congruence.
Qed.

Lemma find_app_cons {A : Type} (f : A -> bool) (l1 l2 : list A) (x : A) :
  f x = false -> find f (l1 ++ x :: l2) = find f (l1 ++ l2).
Proof.
  intros Hx. induction l1 as [|y l1 IH]; cbn.
  - now rewrite Hx.
  - now rewrite IH.
Qed.

(** [_removeUser] takes out the first user with the userID sought. *)
Lemma removeUser_split (users : list object) (id : value) :
  0 <= _findUserIndex users id ->
  exists us1 u us2,
    users = us1 ++ u :: us2 /\ get u "userID" = id /\
    _removeUser users id = us1 ++ us2.
Proof.
  unfold _removeUser.
  induction users as [|v users IH]; cbn [_findUserIndex]; [lia|].
  destruct (strict_equal (get v "userID") id) eqn:Hv.
  - intros _. exists [], v, users. repeat split. now apply strict_equal_eq.
  - destruct (_findUserIndex users id <? 0) eqn:Hk; [lia|]. intros _.
    apply Z.ltb_ge in Hk. destruct (IH Hk) as (us1 & u & us2 & Hu & Hid & Hr).
    replace (0 <=? _findUserIndex users id) with true in Hr
      by (symmetry; apply Z.leb_le; lia).
    exists (v :: us1), u, us2. split; [now rewrite Hu at 1|]. split; [exact Hid|].
    replace (0 <=? _findUserIndex users id + 1) with true
      by (symmetry; apply Z.leb_le; lia).
    unfold splice1 in *.
    replace (Z.to_nat (_findUserIndex users id + 1))
      with (S (Z.to_nat (_findUserIndex users id))) by lia.
    cbn [firstn skipn app]. now rewrite <- Hr.
Qed.

Lemma findUserIndex_absent (users : list object) (id : value) :
  ~ In id (ids users) -> _findUserIndex users id = -1.
Proof.
  intros Hid. induction users as [|u users IH]; cbn; [reflexivity|].
  destruct (strict_equal (get u "userID") id) eqn:Hu.
  - exfalso. apply Hid. left. now apply strict_equal_eq.
  - rewrite IH; [reflexivity|]. intros H. apply Hid. now right.
Qed.

Lemma findUserIndex_last (users : list object) (event : object) :
  is_primitive (get event "userID") = true ->
  ~ In (get event "userID") (ids users) ->
  _findUserIndex (users ++ [event]) (get event "userID")
  = Z.of_nat (List.length users).
Proof.
  intros Hp Hid. induction users as [|u users IH]; cbn.
  - now rewrite strict_equal_refl.
  - destruct (strict_equal (get u "userID") (get event "userID")) eqn:Hu.
    + exfalso. apply Hid. left. now apply strict_equal_eq.
    + rewrite IH by (intros H; apply Hid; now right).
      destruct (Z.of_nat (List.length users) <? 0) eqn:Hk; [|lia].
      apply Z.ltb_lt in Hk. lia.
Qed.

Lemma with_usersInRoom_twice us (s : RoomState) :
  with_usersInRoom (usersInRoom s) (with_usersInRoom us s) = s.
Proof. now destruct s. Qed.

(** X8. User Join with a primitive userID.  A user whose ID is already in
    the room leaves the room state unchanged; any other user is added at
    the end of the users; in both cases the user can then be found by ID,
    and user IDs that were pairwise distinct stay pairwise distinct. *)
Theorem user_join_adds_once :
  forall (event : object) (s : RoomState),
    is_primitive (get event "userID") = true ->
    (In (get event "userID") (ids (usersInRoom s)) -> onUserJoin event s = s) /\
    (~ In (get event "userID") (ids (usersInRoom s)) ->
     onUserJoin event s = with_usersInRoom (usersInRoom s ++ [event]) s) /\
    (exists u, TrackerRest.findUserInRoomById (onUserJoin event s)
                 (get event "userID") = Some u /\
               get u "userID" = get event "userID") /\
    (NoDup (ids (usersInRoom s)) ->
     NoDup (ids (usersInRoom (onUserJoin event s)))).
Proof.
  intros event s Hp.
  assert (Hin : In (get event "userID") (ids (usersInRoom s)) ->
                onUserJoin event s = s).
  { intros H. unfold onUserJoin. rewrite findUser_find.
    destruct (find_user_present _ _ Hp H) as (u & -> & _). reflexivity. }
  assert (Hout : ~ In (get event "userID") (ids (usersInRoom s)) ->
                 onUserJoin event s
                 = with_usersInRoom (usersInRoom s ++ [event]) s).
  { intros H. unfold onUserJoin.
    now rewrite findUser_find, (find_user_absent _ _ H). }
  split; [exact Hin|]. split; [exact Hout|].
  destruct (find_user_cases (usersInRoom s) _ Hp) as [(u & _ & _ & H)|[_ H]].
  - rewrite (Hin H). split; [|tauto].
    unfold TrackerRest.findUserInRoomById. rewrite findUser_find.
    now apply find_user_present.
  - rewrite (Hout H). cbn [usersInRoom with_usersInRoom]. split.
    + unfold TrackerRest.findUserInRoomById. cbn [usersInRoom with_usersInRoom].
      rewrite findUser_find. apply find_user_present; [assumption|].
      unfold ids. rewrite map_app, in_app_iff. right. now left.
    + intros Hnd. unfold ids. rewrite map_app. cbn [map].
      now apply NoDup_push.
Qed.

Lemma user_join_adds_once_witness :
  onUserJoin (user_object 100 Sample.userA) Sample.empty_room = Sample.empty_room /\
  onUserJoin (user_object 100 Sample.vip) Sample.empty_room
  = with_usersInRoom
      (usersInRoom Sample.empty_room ++ [user_object 100 Sample.vip])
      Sample.empty_room.
Proof.
  split.
  - apply (proj1 (user_join_adds_once (user_object 100 Sample.userA)
                    Sample.empty_room eq_refl)).
    cbn. now left.
  - apply (proj1 (proj2 (user_join_adds_once (user_object 100 Sample.vip)
                           Sample.empty_room eq_refl))).
    cbn. intros [H|[H|[H|[]]]]; discriminate H.
Defined.

(** X9. User Leave with a primitive userID, when the user IDs in the room
    are pairwise distinct: afterwards the user is not in the room and is
    not found by ID, every other user is found as before, and the user IDs
    are still pairwise distinct.  When the user was not in the room the
    room state is unchanged (whatever the user IDs in the room). *)
Theorem user_leave_removes_the_user :
  forall (event : object) (s : RoomState),
    (~ In (get event "userID") (ids (usersInRoom s)) -> onUserLeave event s = s) /\
    (is_primitive (get event "userID") = true ->
     NoDup (ids (usersInRoom s)) ->
     ~ In (get event "userID") (ids (usersInRoom (onUserLeave event s))) /\
     TrackerRest.findUserInRoomById (onUserLeave event s) (get event "userID")
     = None /\
     NoDup (ids (usersInRoom (onUserLeave event s))) /\
     forall other : value,
       other <> get event "userID" ->
       TrackerRest.findUserInRoomById (onUserLeave event s) other
       = TrackerRest.findUserInRoomById s other).
Proof.
  intros event s. split.
  - intros H. unfold onUserLeave, _removeUser.
    rewrite (findUserIndex_absent _ _ H). cbn. now destruct s.
  - intros Hp Hnd.
    destruct (find_user_cases (usersInRoom s) _ Hp) as [(u & Hf & _ & H)|[_ H]].
    + assert (Hidx : 0 <= _findUserIndex (usersInRoom s) (get event "userID")).
      { destruct (Z.lt_ge_cases (_findUserIndex (usersInRoom s)
                                   (get event "userID")) 0) as [Hneg|]; [|assumption].
        exfalso. rewrite <- findUser_find in Hf. unfold _findUser in Hf.
        replace (0 <=? _) with false in Hf
          by (symmetry; apply Z.leb_gt; exact Hneg).
        discriminate. }
      destruct (removeUser_split _ _ Hidx) as (us1 & v & us2 & Hu & Hv & Hr).
      unfold onUserLeave, TrackerRest.findUserInRoomById.
      cbn [usersInRoom with_usersInRoom]. rewrite Hr.
      rewrite Hu in Hnd. unfold ids in *. rewrite map_app in *.
      cbn [map] in Hnd. rewrite Hv in Hnd.
      pose proof (NoDup_remove_2 _ _ _ Hnd) as Hout.
      split; [exact Hout|]. split; [|split].
      * rewrite findUser_find. apply find_user_absent.
        unfold ids. now rewrite map_app.
      * eapply NoDup_remove_1; eassumption.
      * intros other Hne. rewrite !findUser_find, Hu.
        symmetry. apply find_app_cons. rewrite Hv.
        destruct (strict_equal (get event "userID") other) eqn:E; [|reflexivity].
        apply strict_equal_eq in E. congruence.
    + assert (Hs : onUserLeave event s = s).
      { unfold onUserLeave, _removeUser.
        rewrite (findUserIndex_absent _ _ H). cbn. now destruct s. }
      rewrite Hs. split; [exact H|]. split; [|split; [exact Hnd|reflexivity]].
      unfold TrackerRest.findUserInRoomById. rewrite findUser_find.
      now apply find_user_absent.
Qed.

Lemma user_leave_removes_the_user_witness :
  ~ In (VStr "idA")
       (ids (usersInRoom (onUserLeave (user_object 100 Sample.userA)
                            Sample.empty_room))) /\
  TrackerRest.findUserInRoomById
    (onUserLeave (user_object 100 Sample.userA) Sample.empty_room) (VStr "idA")
  = None.
Proof.
  refine (let H := proj2 (user_leave_removes_the_user
                            (user_object 100 Sample.userA) Sample.empty_room)
                         eq_refl _ in
          conj (proj1 H) (proj1 (proj2 H))).
  cbn. repeat constructor; cbn; intuition discriminate.
Defined.

(** X10. A user who was not in the room, joins and leaves again, leaves
    the room state exactly as it was before. *)
Theorem join_then_leave_restores_the_room :
  forall (event : object) (s : RoomState),
    is_primitive (get event "userID") = true ->
    ~ In (get event "userID") (ids (usersInRoom s)) ->
    onUserLeave event (onUserJoin event s) = s.
Proof.
  intros event s Hp Hout.
  unfold onUserJoin. rewrite findUser_find, (find_user_absent _ _ Hout).
  unfold onUserLeave, _removeUser. cbn [usersInRoom with_usersInRoom].
  rewrite (findUserIndex_last _ _ Hp Hout).
  replace (0 <=? Z.of_nat (List.length (usersInRoom s))) with true
    by (symmetry; apply Z.leb_le; lia).
  unfold splice1. rewrite Nat2Z.id.
  rewrite firstn_app, firstn_all, Nat.sub_diag. cbn [firstn].
  rewrite skipn_all2 by (rewrite length_app; cbn; lia).
  rewrite !app_nil_r. now destruct s.
Qed.

Lemma join_then_leave_restores_the_room_witness :
  onUserLeave (user_object 100 Sample.vip)
    (onUserJoin (user_object 100 Sample.vip) Sample.empty_room)
  = Sample.empty_room.
Proof.
  apply (join_then_leave_restores_the_room (user_object 100 Sample.vip)
           Sample.empty_room eq_refl).
  cbn. intros [H|[H|[H|[]]]]; discriminate H.
Defined.

(** ** What each event leaves alone *)

Lemma onChat_frame cfg now event s :
  let s' := state_of (onChat cfg now event s) in
  playHistory s' = playHistory s /\ usersInRoom s' = usersInRoom s /\
  waitList s' = waitList s /\ mediaQueue s' = mediaQueue s.
Proof.
  unfold onChat. destruct (_ >? _); [destruct (set_length _ _)|];
    now repeat split.
Qed.

Lemma onAdvance_frame cfg event s :
  let s' := state_of (onAdvance cfg event s) in
  chatHistory s' = chatHistory s /\ usersInRoom s' = usersInRoom s /\
  waitList s' = waitList s /\ mediaQueue s' = mediaQueue s.
Proof.
  unfold onAdvance. destruct (_ >? _); [destruct (set_length _ _)|];
    now repeat split.
Qed.

Lemma onGrab_frame event s :
  let s' := state_of (onGrab event s) in
  chatHistory s' = chatHistory s /\ usersInRoom s' = usersInRoom s /\
  waitList s' = waitList s /\ mediaQueue s' = mediaQueue s /\
  tl (playHistory s') = tl (playHistory s).
Proof.
  unfold onGrab. destruct (playHistory s) as [|p older] eqn:Hh; cbn.
  - now rewrite Hh.
  - destruct (_ <? _); cbn; rewrite ?Hh; now repeat split.
Qed.

Lemma onVote_frame event s :
  let s' := state_of (onVote event s) in
  chatHistory s' = chatHistory s /\ usersInRoom s' = usersInRoom s /\
  waitList s' = waitList s /\ mediaQueue s' = mediaQueue s /\
  tl (playHistory s') = tl (playHistory s).
Proof.
  unfold onVote. destruct (playHistory s) as [|p older] eqn:Hh; cbn.
  - now rewrite Hh.
  - now repeat split.
Qed.

Lemma onUserJoin_frame event s :
  let s' := onUserJoin event s in
  chatHistory s' = chatHistory s /\ playHistory s' = playHistory s /\
  waitList s' = waitList s /\ mediaQueue s' = mediaQueue s.
Proof. unfold onUserJoin. destruct (_findUser _ _); now repeat split. Qed.

Lemma onChatDelete_frame now event s :
  let s' := fst (onChatDelete now event s) in
  playHistory s' = playHistory s /\ usersInRoom s' = usersInRoom s /\
  waitList s' = waitList s /\ mediaQueue s' = mediaQueue s.
Proof.
  unfold onChatDelete. destruct (delete_from _ _ _). now repeat split.
Qed.

(** X11. Each event of the tracker changes its own part of the room state
    only: Advance, Grab and Vote the play history; Chat and Chat Delete the
    chat history; User Join and User Leave the users; the wait-list update
    the wait list.  No event changes the media queue. *)
Theorem each_event_changes_its_own_part :
  forall (cfg : Config) (now : Z) (e : tracked_event) (s : RoomState),
    let s' := state_of (deliver cfg now e s) in
    mediaQueue s' = mediaQueue s /\
    match e with
    | ADVANCE _ | GRAB _ | VOTE _ =>
        chatHistory s' = chatHistory s /\ usersInRoom s' = usersInRoom s /\
        waitList s' = waitList s
    | CHAT _ | CHAT_DELETE _ =>
        playHistory s' = playHistory s /\ usersInRoom s' = usersInRoom s /\
        waitList s' = waitList s
    | USER_JOIN _ | USER_LEAVE _ =>
        chatHistory s' = chatHistory s /\ playHistory s' = playHistory s /\
        waitList s' = waitList s
    | ROOM_PLAYLIST_QUEUE_UPDATE _ =>
        chatHistory s' = chatHistory s /\ playHistory s' = playHistory s /\
        usersInRoom s' = usersInRoom s
    end.
Proof.
  intros cfg now e s.
  destruct e as [event|event|event|event|event|event|event|event];
    cbn [deliver state_of].
  - destruct (onAdvance_frame cfg event s) as (? & ? & ? & ?). now repeat split.
  - destruct (onChat_frame cfg now event s) as (? & ? & ? & ?). now repeat split.
  - destruct (onChatDelete_frame now event s) as (? & ? & ? & ?).
    now repeat split.
  - destruct (onGrab_frame event s) as (? & ? & ? & ? & ?). now repeat split.
  - now repeat split.
  - now repeat split.
  - destruct (onUserJoin_frame event s) as (? & ? & ? & ?). now repeat split.
  - destruct (onVote_frame event s) as (? & ? & ? & ? & ?). now repeat split.
Qed.

Lemma each_event_frame_mediaQueue cfg now e s :
  mediaQueue (state_of (deliver cfg now e s)) = mediaQueue s.
Proof.
  destruct e as [event|event|event|event|event|event|event|event];
    cbn [deliver state_of]; try reflexivity.
  - apply onAdvance_frame.
  - apply onChat_frame.
  - apply onChatDelete_frame.
  - apply onGrab_frame.
  - apply onUserJoin_frame.
  - apply onVote_frame.
Qed.

Lemma each_event_frame_waitList cfg now e s :
  negb (is_queue_update e) = true ->
  waitList (state_of (deliver cfg now e s)) = waitList s.
Proof.
  destruct e as [event|event|event|event|event|event|event|event];
    cbn [deliver state_of is_queue_update negb]; try reflexivity;
    try discriminate; intros _.
  - apply onAdvance_frame.
  - apply onChat_frame.
  - apply onChatDelete_frame.
  - apply onGrab_frame.
  - apply onUserJoin_frame.
  - apply onVote_frame.
Qed.

Lemma deliver_all_mediaQueue cfg now events :
  forall s, mediaQueue (state_of (deliver_all cfg now events s)) = mediaQueue s.
Proof.
  induction events as [|e events IH]; intros s; cbn; [reflexivity|].
  pose proof (each_event_frame_mediaQueue cfg now e s) as H.
  destruct (deliver cfg now e s) as [s'|err s']; cbn in *.
  - now rewrite IH.
  - exact H.
Qed.

Lemma deliver_all_waitList cfg now events :
  forall s, forallb (fun e => negb (is_queue_update e)) events = true ->
            waitList (state_of (deliver_all cfg now events s)) = waitList s.
Proof.
  induction events as [|e events IH]; intros s Hq; cbn; [reflexivity|].
  cbn in Hq. apply andb_prop in Hq. destruct Hq as [He Hq].
  pose proof (each_event_frame_waitList cfg now e s He) as H.
  destruct (deliver cfg now e s) as [s'|err s']; cbn in *.
  - now rewrite IH.
  - exact H.
Qed.

(** X12. The wait list fetched at initialisation is not stored: after
    initialisation the wait list of the room state is [undefined] and the
    media queue is empty, and they stay so over every sequence of events,
    until a wait-list update is delivered (the media queue for ever). *)
Theorem wait_list_is_undefined_until_updated :
  forall divide (cfg : Config) (now : Z) media dj users elapsedTime
         (events : list tracked_event),
    let s := state_of (deliver_all cfg now events
                         (init divide now media dj users elapsedTime)) in
    mediaQueue s = [] /\
    (forallb (fun e => negb (is_queue_update e)) events = true ->
     waitList s = VUndefined).
Proof.
  intros divide cfg now media dj users elapsedTime events. split.
  - rewrite deliver_all_mediaQueue. unfold init, populateUsers.
    now destruct (_ && _).
  - intros Hq. rewrite deliver_all_waitList by assumption.
    unfold init, populateUsers. now destruct (_ && _).
Qed.

Lemma wait_list_is_undefined_until_updated_witness :
  waitList (state_of (deliver_all Sample.cfg 100
                        [ADVANCE (Sample.advance "idA" "t1");
                         GRAB (Sample.grab_by "idB")]
                        (init (fun a _ => a) 100 None None [Sample.userA] 0)))
  = VUndefined.
Proof.
  apply (proj2 (wait_list_is_undefined_until_updated (fun a _ => a) Sample.cfg
                  100 None None [Sample.userA] 0
                  [ADVANCE (Sample.advance "idA" "t1");
                   GRAB (Sample.grab_by "idB")])).
  reflexivity.
Defined.

Lemma nth_error_S_tl {A : Type} (l : list A) (i : nat) :
  nth_error l (S i) = nth_error (tl l) i.
Proof. destruct l; [now destruct i|reflexivity]. Qed.

(** X13. Only the current play is ever changed.  A play that is not the
    current one is found unchanged after any event (one place further after
    an Advance), and the current play itself is found unchanged after any
    event other than Grab and Vote, as long as the truncation of an Advance
    has not dropped it. *)
Theorem older_plays_never_change :
  forall (cfg : Config) (now : Z) (e : tracked_event) (s : RoomState)
         (i : nat) (p p' : Play),
    nth_error (playHistory s) i = Some p ->
    (1 <= i)%nat \/ changes_votes e = false ->
    nth_error (playHistory (state_of (deliver cfg now e s))) (i + shift e)
    = Some p' ->
    p' = p.
Proof.
  intros cfg now e s i p p' Hi Hcond.
  destruct e as [event|event|event|event|event|event|event|event];
    cbn [deliver shift state_of]; rewrite ?Nat.add_0_r, ?Nat.add_1_r.
  - apply onAdvance_keeps. exact Hi.
  - rewrite (proj1 (onChat_frame cfg now event s)). congruence.
  - rewrite (proj1 (onChatDelete_frame now event s)). congruence.
  - destruct Hcond as [Hc|Hc]; [|discriminate].
    destruct (onGrab_frame event s) as (_ & _ & _ & _ & Ht).
    destruct i as [|i]; [lia|].
    rewrite nth_error_S_tl, Ht. rewrite nth_error_S_tl in Hi. congruence.
  - cbn. congruence.
  - cbn. congruence.
  - rewrite (proj1 (proj2 (onUserJoin_frame event s))). congruence.
  - destruct Hcond as [Hc|Hc]; [|discriminate].
    destruct (onVote_frame event s) as (_ & _ & _ & _ & Ht).
    destruct i as [|i]; [lia|].
    rewrite nth_error_S_tl, Ht. rewrite nth_error_S_tl in Hi. congruence.
Qed.

Lemma older_plays_never_change_witness :
  nth 1 (playHistory (state_of (deliver Sample.cfg 100
                                  (GRAB (Sample.grab_by "idB"))
                                  (state_of (onAdvance Sample.cfg
                                               (Sample.advance "idB" "t2")
                                               Sample.grabbed_room)))))
      (new_play [])
  = Sample.grabbed_play.
Proof.
  apply (older_plays_never_change Sample.cfg 100 (GRAB (Sample.grab_by "idB"))
           (state_of (onAdvance Sample.cfg (Sample.advance "idB" "t2")
                        Sample.grabbed_room))
           1%nat Sample.grabbed_play);
    [reflexivity|left; lia|reflexivity].
Defined.

(** ** Initialisation *)




Lemma in_map_filter {A B : Type} (f : A -> B) (p : A -> bool) (l : list A) y :
  In y (map f (filter p l)) -> In y (map f l).
Proof.
  intros H. apply in_map_iff in H. destruct H as (x & Hx & Hf).
  apply filter_In in Hf. apply in_map_iff. exists x. tauto.
Qed.

(** The IDs of the users selected by a flag are pairwise distinct when the
    IDs of all users are. *)
Lemma selected_ids_distinct (users : list DubUser) :
  NoDup (map du_id users) ->
  forall flag : DubUser -> bool, NoDup (map du_id (filter flag users)).
Proof.
  intros Hnd flag. induction users as [|u users IH]; cbn; [constructor|].
  apply NoDup_cons_iff in Hnd. destruct Hnd as [Hu Hnd].
  destruct (flag u); [|exact (IH Hnd)].
  cbn. apply NoDup_cons; [|exact (IH Hnd)].
  intros Hin. apply Hu. eapply in_map_filter. exact Hin.
Qed.

Lemma filters_disjoint {A B : Type} (f : A -> B) (p q : A -> bool)
    (l : list A) (y : B) :
  (forall x, p x = true -> q x = true -> False) ->
  NoDup (map f l) ->
  In y (map f (filter p l)) -> In y (map f (filter q l)) -> False.
Proof.
  intros Hpq. induction l as [|a l IH]; cbn; [intros _ []|].
  intros H. inversion H as [|? ? Ha Hl]; subst.
  destruct (p a) eqn:Hp, (q a) eqn:Hq; cbn.
  - exfalso. eauto.
  - intros [<-|H1] H2.
    + apply Ha. eapply in_map_filter. exact H2.
    + now apply IH.
  - intros H1 [<-|H2].
    + apply Ha. eapply in_map_filter. exact H1.
    + now apply IH.
  - now apply IH.
Qed.

(** X15. When the users of the room have pairwise distinct IDs, the votes
    seeded at initialisation hold every ID at most once in the grabs, in
    the woots and in the mehs, and no ID is both in the woots and in the
    mehs. *)
Theorem seeded_votes_are_consistent :
  forall users : list DubUser,
    NoDup (map du_id users) ->
    NoDup (grabs (seeded_votes users)) /\
    NoDup (woots (seeded_votes users)) /\
    NoDup (mehs (seeded_votes users)) /\
    forall id, In id (woots (seeded_votes users)) ->
               In id (mehs (seeded_votes users)) -> False.
Proof.
  intros users Hnd. unfold seeded_votes. cbn [grabs woots mehs].
  repeat split; try (now apply selected_ids_distinct).
  intros id. apply filters_disjoint; [|exact Hnd].
  intros x H1 H2. apply strict_equal_eq in H1. rewrite H1 in H2. discriminate.
Qed.

Lemma seeded_votes_are_consistent_witness :
  NoDup (woots (seeded_votes [Sample.userA; Sample.userB])) /\
  NoDup (mehs (seeded_votes [Sample.userA; Sample.userB])).
Proof.
  refine (let H := seeded_votes_are_consistent [Sample.userA; Sample.userB] _ in
          conj (proj1 (proj2 H)) (proj1 (proj2 (proj2 H)))).
  cbn. repeat constructor; cbn; intuition discriminate.
Defined.

(** ** Looking plays up by content ID *)

Lemma plays_for_filter (contentID : value) (history : list Play) :
  Forall media_is_object history ->
  TrackerRest.plays_for contentID history
  = inl (filter (fun p => strict_equal (contentID_of p) contentID) history).
Proof.
  induction 1 as [|p history [props Hp] _ IH]; cbn; [reflexivity|].
  unfold contentID_of. rewrite Hp. cbn [member]. rewrite IH. reflexivity.
Qed.

Lemma plays_for_throws (contentID : value) (history : list Play) :
  Exists (fun p => media p = VUndefined \/ media p = VNull) history ->
  TrackerRest.plays_for contentID history = inr TypeError.
Proof.
  induction 1 as [p history [Hp|Hp]|p history _ IH]; cbn.
  - now rewrite Hp.
  - now rewrite Hp.
  - rewrite IH. now destruct (media p).
Qed.

(** X16. [findPlaysForContentId].  When the media of every stored play is
    an object, the result is the plays whose media has the content ID
    sought, in the order of the history (most recent first).  When the
    media of some stored play is [undefined] or [null], the lookup throws a
    TypeError, whatever the content ID sought. *)
Theorem find_plays_for_content_id :
  forall (s : RoomState) (contentID : value),
    (Forall media_is_object (playHistory s) ->
     TrackerRest.findPlaysForContentId s contentID
     = inl (filter (fun p => strict_equal (contentID_of p) contentID)
                   (playHistory s))) /\
    (Exists (fun p => media p = VUndefined \/ media p = VNull) (playHistory s) ->
     TrackerRest.findPlaysForContentId s contentID = inr TypeError).
Proof.
  intros s contentID. unfold TrackerRest.findPlaysForContentId. split.
  - apply plays_for_filter.
  - apply plays_for_throws.
Qed.

Lemma find_plays_for_content_id_witness :
  TrackerRest.findPlaysForContentId
    (init (fun a _ => a) 100
       (Some {| media_fkid := VStr "yt1"; media_songLength := VNum 200000;
                media_name := VStr "song" |})
       (Some Sample.userA) [Sample.userA] 30)
    (VStr "yt1")
  = inl (filter (fun p => strict_equal (contentID_of p) (VStr "yt1"))
           (playHistory
              (init (fun a _ => a) 100
                 (Some {| media_fkid := VStr "yt1";
                          media_songLength := VNum 200000;
                          media_name := VStr "song" |})
                 (Some Sample.userA) [Sample.userA] 30))).
Proof.
  apply (proj1 (find_plays_for_content_id _ (VStr "yt1"))).
  cbn. repeat constructor. eexists. reflexivity.
Defined.

(** ** Translation of Advance events *)

Lemma In_firstn {A : Type} (n : nat) (l : list A) (x : A) :
  In x (firstn n l) -> In x l.
Proof.
  revert l. induction n as [|n IH]; intros [|a l]; cbn; try tauto.
  intros [H|H]; [now left|right; now apply IH].
Qed.

Section AdvanceTranslation.

Variable divide : value -> value -> value.

(** X17. Translation of an Advance event.  The result is null exactly
    when the event lacks a user or a media.  Otherwise the incoming DJ and
    the media are the translated user and media (the username and the
    content ID read back are those of the event), the local start date is
    now, the start date is the start time of the event when that is
    positive and now otherwise, and a previous play is attached exactly
    when the last play of the event has a user, a media and a score. *)
Theorem advance_translation :
  forall (now : Z) (event : TranslatorRest.DubAdvanceEvent),
    (TranslatorRest.translateAdvanceEvent divide now event = None <->
     TranslatorRest.adv_user event = None \/
     TranslatorRest.adv_media event = None) /\
    forall o,
      TranslatorRest.translateAdvanceEvent divide now event = Some o ->
      (exists u m,
          TranslatorRest.adv_user event = Some u /\
          TranslatorRest.adv_media event = Some m /\
          get o "incomingDJ" = translateUserObject now (Some u) /\
          member (get o "incomingDJ") "username" = inl (du_username u) /\
          get o "media" = translateMediaObject divide (Some m) /\
          member (get o "media") "contentID" = inl (media_fkid m)) /\
      get o "localStartDate" = VDate (VNum now) /\
      get o "startDate"
      = match TranslatorRest.adv_startTime event with
        | Some startTime =>
            if 0 <? startTime then VDate (VNum startTime) else VDate (VNum now)
        | None => VDate (VNum now)
        end /\
      (get o "previousPlay" <> VUndefined <->
       exists lp u m sc,
         TranslatorRest.adv_lastPlay event = Some lp /\
         TranslatorRest.last_user lp = Some u /\
         TranslatorRest.last_media lp = Some m /\
         TranslatorRest.last_score lp = Some sc).
Proof.
  intros now event. split.
  - unfold TranslatorRest.translateAdvanceEvent.
    destruct (TranslatorRest.adv_user event) as [u|];
      destruct (TranslatorRest.adv_media event) as [m|];
      try (split; [tauto|reflexivity]).
    destruct (TranslatorRest.adv_lastPlay event) as [[[?|] [?|] [?|]]|];
      (split; [discriminate|intros [H|H]; discriminate H]).
  - intros o Ho. unfold TranslatorRest.translateAdvanceEvent in Ho.
    destruct (TranslatorRest.adv_user event) as [u|]; [|discriminate].
    destruct (TranslatorRest.adv_media event) as [m|]; [|discriminate].
    assert (Hstart :
              match TranslatorRest.adv_startTime event with
              | Some startTime =>
                  if negb (startTime =? 0) && (0 <? startTime)
                  then translateDateTimestamp now (VNum startTime)
                  else VDate (VNum now)
              | None => VDate (VNum now)
              end
              = match TranslatorRest.adv_startTime event with
                | Some startTime =>
                    if 0 <? startTime then VDate (VNum startTime)
                    else VDate (VNum now)
                | None => VDate (VNum now)
                end).
    { destruct (TranslatorRest.adv_startTime event) as [t|]; [|reflexivity].
      destruct (0 <? t) eqn:Ht.
      - apply Z.ltb_lt in Ht.
        replace (t =? 0) with false by (symmetry; apply Z.eqb_neq; lia).
        unfold translateDateTimestamp. cbn.
        now replace (t =? 0) with false by (symmetry; apply Z.eqb_neq; lia).
      - now rewrite andb_false_r. }
    rewrite Hstart in Ho. clear Hstart.
    assert (Hlast :
              (exists lp u m sc,
                  TranslatorRest.adv_lastPlay event = Some lp /\
                  TranslatorRest.last_user lp = Some u /\
                  TranslatorRest.last_media lp = Some m /\
                  TranslatorRest.last_score lp = Some sc) \/
              ~ (exists lp u m sc,
                    TranslatorRest.adv_lastPlay event = Some lp /\
                    TranslatorRest.last_user lp = Some u /\
                    TranslatorRest.last_media lp = Some m /\
                    TranslatorRest.last_score lp = Some sc)).
    { destruct (TranslatorRest.adv_lastPlay event) as [[[?|] [?|] [?|]]|];
        try (left; eexists _, _, _, _; repeat split; reflexivity);
        right; intros (lp & u' & m' & sc & H0 & H1 & H2 & H3);
        try discriminate H0; injection H0 as <-; cbn in *; discriminate. }
    destruct Hlast as [Hlast|Hlast].
    + destruct Hlast as (lp & lu & lm & ls & H0 & H1 & H2 & H3).
      rewrite H0 in Ho. destruct lp as [lu' lm' ls']. cbn in H1, H2, H3.
      subst lu' lm' ls'. injection Ho as <-. cbn.
      split; [exists u, m; repeat split|].
      split; [reflexivity|]. split; [reflexivity|].
      split; [intros _; exists {| TranslatorRest.last_user := Some lu;
                                   TranslatorRest.last_media := Some lm;
                                   TranslatorRest.last_score := Some ls |},
                         lu, lm, ls; repeat split; exact H0
             |discriminate].
    + assert (Ho' : o = [("incomingDJ", translateUserObject now (Some u));
                         ("localStartDate", VDate (VNum now));
                         ("media", translateMediaObject divide (Some m));
                         ("startDate",
                          match TranslatorRest.adv_startTime event with
                          | Some startTime =>
                              if 0 <? startTime then VDate (VNum startTime)
                              else VDate (VNum now)
                          | None => VDate (VNum now)
                          end)]).
      { destruct (TranslatorRest.adv_lastPlay event) as [[[lu|] [lm|] [ls|]]|];
          try (injection Ho as <-; reflexivity).
        exfalso. apply Hlast. eexists _, _, _, _. repeat split; reflexivity. }
      subst o. cbn.
      split; [exists u, m; repeat split|].
      split; [reflexivity|]. split; [reflexivity|].
      split; [intros H; now contradiction H|intros H; now contradiction Hlast].
Qed.

(** X18. An Advance event that has a user and a media, delivered through
    the translator with a maximum of at least 1 to a room all of whose
    plays have an object as media: the handler returns normally, the new
    play is the current one, with the translated media and DJ and no votes,
    the older plays follow it, and (for a primitive content ID) the new
    play is the first result of a lookup by its content ID. *)
Theorem advance_makes_the_new_play_current :
  forall (cfg : Config) (now : Z) (event : TranslatorRest.DubAdvanceEvent)
         (s : RoomState) (u : DubUser) (m : DubMedia),
    1 <= numberOfPlayedSongsToStore cfg ->
    TranslatorRest.adv_user event = Some u ->
    TranslatorRest.adv_media event = Some m ->
    is_primitive (media_fkid m) = true ->
    Forall media_is_object (playHistory s) ->
    exists s' p older,
      TrackerRest.dispatch_advance divide cfg now event s = Normal s' /\
      playHistory s' = p :: older /\
      media p = translateMediaObject divide (Some m) /\
      user p = translateUserObject now (Some u) /\
      votes p = empty_votes /\
      older = firstn (Z.to_nat (numberOfPlayedSongsToStore cfg) - 1)
                     (playHistory s) /\
      exists matches,
        TrackerRest.findPlaysForContentId s' (media_fkid m)
        = inl (p :: matches).
Proof.
  intros cfg now event s u m Hmax Hu Hm Hp Hobj.
  unfold TrackerRest.dispatch_advance.
  destruct (TranslatorRest.translateAdvanceEvent divide now event) as [o|] eqn:Ho.
  2:{ unfold TranslatorRest.translateAdvanceEvent in Ho.
      rewrite Hu, Hm in Ho. now destruct (TranslatorRest.adv_lastPlay event)
        as [[[?|] [?|] [?|]]|]. }
  assert (H0 : 0 <= numberOfPlayedSongsToStore cfg) by lia.
  destruct (onAdvance_step cfg H0
              (set o "eventName" (VStr Types.Event.ADVANCE)) s)
    as (s' & Hs & Hh).
  assert (Hplay : media (new_play (set o "eventName" (VStr Types.Event.ADVANCE)))
                  = translateMediaObject divide (Some m) /\
                  user (new_play (set o "eventName" (VStr Types.Event.ADVANCE)))
                  = translateUserObject now (Some u)).
  { unfold TranslatorRest.translateAdvanceEvent in Ho. rewrite Hu, Hm in Ho.
    destruct (TranslatorRest.adv_lastPlay event) as [[[?|] [?|] [?|]]|];
      injection Ho as <-; split; reflexivity. }
  destruct Hplay as [Hmedia Huser].
  replace (Z.to_nat (numberOfPlayedSongsToStore cfg))
    with (S (Z.to_nat (numberOfPlayedSongsToStore cfg) - 1)) in Hh by lia.
  cbn [firstn] in Hh.
  eexists s', _, _. split; [exact Hs|]. split; [exact Hh|].
  split; [exact Hmedia|]. split; [exact Huser|]. split; [reflexivity|].
  split; [reflexivity|].
  unfold TrackerRest.findPlaysForContentId. rewrite Hh.
  rewrite plays_for_filter.
  - cbn [filter]. unfold contentID_of at 1. rewrite Hmedia. cbn.
    rewrite strict_equal_refl by assumption. eexists. reflexivity.
  - constructor.
    + unfold media_is_object. rewrite Hmedia. eexists. reflexivity.
    + apply Forall_forall. intros p Hin. rewrite Forall_forall in Hobj.
      apply Hobj. eapply In_firstn. exact Hin.
Qed.

End AdvanceTranslation.

Lemma advance_translation_witness :
  exists o,
    TranslatorRest.translateAdvanceEvent (fun a _ => a) 100
      (Vendor.advance_of Sample.userA "yt1" (Some 0)) = Some o /\
    get o "startDate" = VDate (VNum 100) /\
    get o "previousPlay" = VUndefined.
Proof.
  eexists. split; [reflexivity|].
  pose proof (proj2 (advance_translation (fun a _ => a) 100
                       (Vendor.advance_of Sample.userA "yt1" (Some 0)))
                    _ eq_refl) as (_ & _ & Hstart & _).
  split; [exact Hstart|reflexivity].
Defined.

Lemma advance_makes_the_new_play_current_witness :
  exists s' p older,
    TrackerRest.dispatch_advance (fun a _ => a) Sample.cfg 100
      (Vendor.advance_of Sample.userB "yt2" None)
      (init (fun a _ => a) 100 (Some (Vendor.track "yt1")) (Some Sample.userA)
            [Sample.userA; Sample.userB] 30)
    = Normal s' /\
    playHistory s' = p :: older /\
    media p = translateMediaObject (fun a _ => a) (Some (Vendor.track "yt2")) /\
    user p = translateUserObject 100 (Some Sample.userB) /\
    votes p = empty_votes /\
    older = firstn (Z.to_nat (numberOfPlayedSongsToStore Sample.cfg) - 1)
              (playHistory
                 (init (fun a _ => a) 100 (Some (Vendor.track "yt1"))
                       (Some Sample.userA) [Sample.userA; Sample.userB] 30)) /\
    exists matches,
      TrackerRest.findPlaysForContentId s' (VStr "yt2") = inl (p :: matches).
Proof.
  apply (advance_makes_the_new_play_current (fun a _ => a) Sample.cfg 100
           (Vendor.advance_of Sample.userB "yt2" None)
           (init (fun a _ => a) 100 (Some (Vendor.track "yt1"))
                 (Some Sample.userA) [Sample.userA; Sample.userB] 30)
           Sample.userB (Vendor.track "yt2"));
    try reflexivity; [cbn; lia|].
  cbn. repeat constructor. eexists. reflexivity.
Defined.

(** ** Wait-list updates *)

(** X19. Wait-list updates replace the wait list.  An update that has a
    queue stores one object per entry, in order, whatever the wait list
    was, so that of two such updates the second alone decides the result;
    an update without a queue is dropped and leaves the room state as it
    is; no update touches another part of the room state. *)
Theorem wait_list_update_replaces :
  forall divide (now : Z) (entries : list TranslatorRest.DubQueueEntry)
         (queue : option (list TranslatorRest.DubQueueEntry)) (s : RoomState),
    TrackerRest.dispatch_queue_update divide now (Some entries) s
    = with_waitList (VArr (map (queue_item divide now) entries)) s /\
    TrackerRest.dispatch_queue_update divide now (Some entries)
      (TrackerRest.dispatch_queue_update divide now queue s)
    = TrackerRest.dispatch_queue_update divide now (Some entries) s /\
    TrackerRest.dispatch_queue_update divide now None s = s.
Proof.
  intros divide now entries queue s.
  assert (H : forall s0, TrackerRest.dispatch_queue_update divide now
                           (Some entries) s0
                         = with_waitList
                             (VArr (map (queue_item divide now) entries)) s0).
  { intros s0. reflexivity. }
  split; [apply H|]. split; [|reflexivity].
  rewrite !H. destruct queue as [q|]; [|reflexivity]. now destruct s.
Qed.

(** ** Roles *)

Lemma strict_equal_false_neq (a : value) (s : string) :
  strict_equal a (VStr s) = false -> a <> VStr s.
Proof.
  intros H ->. cbn in H. now rewrite String.eqb_refl in H.
Qed.

Lemma translateRole_cases (role : value) :
  (exists id name level,
      In id known_role_ids /\ id <> "5615fd84e596150061000003"%string /\
      role = VStr id /\ translateRole role = Types.role name level /\
      0 <= level <= 4) \/
  (role = VStr "5615fd84e596150061000003" /\ translateRole role = VUndefined) \/
  ((forall id, In id known_role_ids -> role <> VStr id) /\
   translateRole role = Types.UserRole.NONE).
Proof.
  unfold translateRole.
  destruct (strict_equal role (VStr "5615fa9ae596154a5c000000")) eqn:H1.
  { apply strict_equal_eq in H1. left. eexists _, _, _.
    split; [|split; [|split; [exact H1|split; [reflexivity|lia]]]];
      [cbn; tauto|discriminate]. }
  destruct (strict_equal role (VStr "5615fd84e596150061000003")) eqn:H2.
  { apply strict_equal_eq in H2. right. left. now split. }
  destruct (strict_equal role (VStr "52d1ce33c38a06510c000001")) eqn:H3.
  { apply strict_equal_eq in H3. left. eexists _, _, _.
    split; [|split; [|split; [exact H3|split; [reflexivity|lia]]]];
      [cbn; tauto|discriminate]. }
  destruct (strict_equal role (VStr "5615fe1ee596154fc2000001")) eqn:H4.
  { apply strict_equal_eq in H4. left. eexists _, _, _.
    split; [|split; [|split; [exact H4|split; [reflexivity|lia]]]];
      [cbn; tauto|discriminate]. }
  destruct (strict_equal role (VStr "5615feb8e596154fc2000002")) eqn:H5.
  { apply strict_equal_eq in H5. left. eexists _, _, _.
    split; [|split; [|split; [exact H5|split; [reflexivity|lia]]]];
      [cbn; tauto|discriminate]. }
  destruct (strict_equal role (VStr "564435423f6ba174d2000001")) eqn:H6.
  { apply strict_equal_eq in H6. left. eexists _, _, _.
    split; [|split; [|split; [exact H6|split; [reflexivity|lia]]]];
      [cbn; tauto|discriminate]. }
  right. right. split; [|reflexivity].
  intros id Hin. cbn in Hin.
  repeat (destruct Hin as [<-|Hin];
          [now apply strict_equal_false_neq|]).
  destruct Hin.
Qed.

(** X20. Translation of a role.  The result is [undefined] exactly for the
    manager identifier of the vendor; for every other value it is a role of
    [Types.UserRole] with a level between 0 and 4, and it is NONE for every
    value that is not one of the six known identifiers. *)
Theorem role_translation :
  forall role : value,
    (translateRole role = VUndefined <->
     role = VStr "5615fd84e596150061000003") /\
    (role <> VStr "5615fd84e596150061000003" ->
     exists name level,
       translateRole role = Types.role name level /\ 0 <= level <= 4) /\
    ((forall id, In id known_role_ids -> role <> VStr id) ->
     translateRole role = Types.UserRole.NONE).
Proof.
  intros role.
  destruct (translateRole_cases role)
    as [(id & name & level & Hin & Hid & Hr & Ht & Hl)|[[Hr Ht]|[Hk Ht]]].
  - split; [|split].
    + rewrite Ht. split; [discriminate|].
      intros H. rewrite H in Hr. injection Hr as <-. congruence.
    + intros _. eauto.
    + intros Hk. exfalso. now apply (Hk id Hin).
  - split; [|split].
    + tauto.
    + intros H. contradiction.
    + intros Hk. exfalso. apply (Hk "5615fd84e596150061000003"%string);
        [cbn; tauto|exact Hr].
  - split; [|split].
    + rewrite Ht. split; [discriminate|].
      intros H. exfalso. apply (Hk "5615fd84e596150061000003"%string);
        [cbn; tauto|exact H].
    + intros _. exists "none"%string, 0. split; [exact Ht|lia].
    + intros _. exact Ht.
Qed.

Lemma role_translation_witness :
  translateRole (VStr "an unknown role") = Types.UserRole.NONE.
Proof.
  apply (proj2 (proj2 (role_translation (VStr "an unknown role")))).
  intros id Hin. cbn in Hin.
  repeat (destruct Hin as [<-|Hin]; [discriminate|]). destruct Hin.
Defined.

(** ** Votes through the translator *)

(** X21. Translation of a Vote event.  An event whose dubtype is neither
    "updub" nor "downdub" has no translation, and its dispatch leaves the
    room state as it is without an error; any other event is translated to
    a vote of 1 for "updub" and of -1 for "downdub". *)
Theorem vote_translation :
  forall (now : Z) (event : DubVoteEvent) (s : RoomState),
    (vote_dubtype event <> VStr "updub" ->
     vote_dubtype event <> VStr "downdub" ->
     translateVoteEvent now event = None /\ dispatch_vote now event s = Normal s) /\
    (vote_dubtype event = VStr "updub" ->
     exists o, translateVoteEvent now event = Some o /\ get o "vote" = VNum 1) /\
    (vote_dubtype event = VStr "downdub" ->
     exists o, translateVoteEvent now event = Some o /\ get o "vote" = VNum (-1)).
Proof.
  intros now event s. unfold dispatch_vote, translateVoteEvent.
  split; [|split].
  - intros Hup Hdown.
    destruct (strict_equal (vote_dubtype event) (VStr "updub")) eqn:E1;
      [apply strict_equal_eq in E1; contradiction|].
    destruct (strict_equal (vote_dubtype event) (VStr "downdub")) eqn:E2;
      [apply strict_equal_eq in E2; contradiction|].
    split; reflexivity.
  - intros ->. eexists. split; reflexivity.
  - intros ->. eexists. split; reflexivity.
Qed.

Lemma vote_translation_witness :
  translateVoteEvent 100 (Sample.vote "sideways" Sample.userA) = None /\
  dispatch_vote 100 (Sample.vote "sideways" Sample.userA) Sample.playing_room
  = Normal Sample.playing_room.
Proof.
  apply (proj1 (vote_translation 100 (Sample.vote "sideways" Sample.userA)
                  Sample.playing_room)); discriminate.
Defined.

(** ** Subscription and dispatch *)

Lemma key_named_event_name (key : Dispatcher.event_key) :
  Dispatcher.key_named (Dispatcher.event_name key) = Some key.
Proof. now destruct key. Qed.

Lemma key_named_sound (name : string) (key : Dispatcher.event_key) :
  Dispatcher.key_named name = Some key -> Dispatcher.event_name key = name.
Proof.
  unfold Dispatcher.key_named. intros H. apply find_some in H.
  now apply String.eqb_eq.
Qed.

Lemma key_named_none (name : string) :
  Dispatcher.key_named name = None ->
  forall key, (name =? Dispatcher.event_name key)%string = false.
Proof.
  intros H key. apply String.eqb_neq. intros ->.
  rewrite key_named_event_name in H. discriminate.
Qed.

Lemma listener_eta (l : Dispatcher.listener) :
  {| Dispatcher.callback := Dispatcher.callback l;
     Dispatcher.context := Dispatcher.context l |} = l.
Proof. now destruct l. Qed.

(** Registrations under names that are no inherited property names all
    return normally, and add each listener at the end of the list of its
    event, leaving the registrations for unknown names without effect. *)
Lemma on_all_registered (regs : list (string * Dispatcher.listener)) :
  forallb (fun r => negb (Dispatcher.inherited (fst r))) regs = true ->
  forall h : Dispatcher.handlers,
  exists h',
    Dispatcher.on_all h regs = inl h' /\
    forall key, h' key = h key ++ registered_for (Dispatcher.event_name key) regs.
Proof.
  induction regs as [|[name l] regs IH]; intros Hreg h.
  - exists h. split; [reflexivity|]. intros key. cbn. now rewrite app_nil_r.
  - cbn [forallb fst] in Hreg. apply andb_prop in Hreg.
    destruct Hreg as [Hname Hreg]. apply negb_true_iff in Hname.
    cbn [Dispatcher.on_all]. unfold Dispatcher.on. rewrite listener_eta.
    destruct (Dispatcher.key_named name) as [k|] eqn:Hk.
    + apply key_named_sound in Hk. subst name.
      destruct (IH Hreg (fun k0 =>
                  if (Dispatcher.event_name k0 =? Dispatcher.event_name k)%string
                  then h k0 ++ [l] else h k0)) as (h' & Hrun & Hh').
      exists h'. split; [exact Hrun|]. intros key. rewrite Hh'.
      unfold registered_for. cbn [filter fst].
      rewrite (String.eqb_sym (Dispatcher.event_name k)).
      destruct (Dispatcher.event_name key =? Dispatcher.event_name k)%string;
        [now rewrite <- app_assoc|reflexivity].
    + rewrite Hname. destruct (IH Hreg h) as (h' & Hrun & Hh').
      exists h'. split; [exact Hrun|]. intros key. rewrite Hh'.
      unfold registered_for. cbn [filter fst].
      now rewrite (key_named_none name Hk key).
Qed.

(** X22. Listeners are called in registration order.  After any
    registrations under names that are not inherited property names,
    starting from the table of the constructor, an event that has a
    translation is delivered to exactly the listeners registered under its
    event name, once each and in the order of their registration, all with
    the same translated object carrying the event name; the registrations
    under other names, unknown ones included, play no part. *)
Theorem listeners_are_called_in_registration_order :
  forall (V : Type) (regs : list (string * Dispatcher.listener))
         (key : Dispatcher.event_key) (translate : V -> option object)
         (event : V) (internalObject : object),
    forallb (fun r => negb (Dispatcher.inherited (fst r))) regs = true ->
    translate event = Some internalObject ->
    exists h,
      Dispatcher.on_all Dispatcher.no_handlers regs = inl h /\
      Dispatcher.dispatch h key (Some translate) event
      = map (fun l => Dispatcher.Delivered l
                        (set internalObject "eventName"
                             (VStr (Dispatcher.event_name key))))
            (registered_for (Dispatcher.event_name key) regs).
Proof.
  intros V regs key translate event internalObject Hreg Ht.
  destruct (on_all_registered regs Hreg Dispatcher.no_handlers)
    as (h & Hrun & Hh).
  exists h. split; [exact Hrun|].
  unfold Dispatcher.dispatch. rewrite Ht, Hh. reflexivity.
Qed.

Lemma listeners_are_called_in_registration_order_witness :
  exists h,
    Dispatcher.on_all Dispatcher.no_handlers
      [("chat-message", {| Dispatcher.callback := "onChat";
                           Dispatcher.context := VUndefined |});
       ("no-such-event", {| Dispatcher.callback := "lost";
                            Dispatcher.context := VUndefined |});
       ("chat-message", {| Dispatcher.callback := "commandHandler";
                           Dispatcher.context := VUndefined |})] = inl h /\
    Dispatcher.dispatch h Dispatcher.CHAT
      (Some (fun id : string => Some [("chatID", VStr id)])) "c1"
    = [Dispatcher.Delivered
         {| Dispatcher.callback := "onChat"; Dispatcher.context := VUndefined |}
         [("chatID", VStr "c1"); ("eventName", VStr "chat-message")];
       Dispatcher.Delivered
         {| Dispatcher.callback := "commandHandler";
            Dispatcher.context := VUndefined |}
         [("chatID", VStr "c1"); ("eventName", VStr "chat-message")]].
Proof.
  apply (listeners_are_called_in_registration_order string
           [("chat-message", {| Dispatcher.callback := "onChat";
                                Dispatcher.context := VUndefined |});
            ("no-such-event", {| Dispatcher.callback := "lost";
                                 Dispatcher.context := VUndefined |});
            ("chat-message", {| Dispatcher.callback := "commandHandler";
                                Dispatcher.context := VUndefined |})]
           Dispatcher.CHAT (fun id : string => Some [("chatID", VStr id)])
           "c1" [("chatID", VStr "c1")]); reflexivity.
Defined.

Lemma inherited_is_no_event (name : string) :
  Dispatcher.inherited name = true -> Dispatcher.key_named name = None.
Proof.
  unfold Dispatcher.inherited. intros H. apply existsb_exists in H.
  destruct H as (x & Hin & Hx). apply String.eqb_eq in Hx. subst x.
  cbn in Hin.
  repeat (destruct Hin as [<-|Hin]; [reflexivity|]). destruct Hin.
Qed.

(** X23. Registration under a name that is no event name.  When the name
    is a property every object inherits (such as "toString"), the
    registration throws a TypeError; for any other unknown name it returns
    normally and leaves the table of listeners as it was. *)
Theorem registration_under_an_unknown_name :
  forall (h : Dispatcher.handlers) (name cb : string) (ctx : value),
    (Dispatcher.inherited name = true ->
     Dispatcher.on h name cb ctx = inr TypeError) /\
    (Dispatcher.inherited name = false ->
     (forall key, Dispatcher.event_name key <> name) ->
     Dispatcher.on h name cb ctx = inl h).
Proof.
  intros h name cb ctx. unfold Dispatcher.on. split.
  - intros H. now rewrite (inherited_is_no_event name H), H.
  - intros H Hkey.
    destruct (Dispatcher.key_named name) as [k|] eqn:Hk.
    + apply key_named_sound in Hk. now contradiction (Hkey k).
    + now rewrite H.
Qed.

Lemma registration_under_an_unknown_name_witness :
  Dispatcher.on Dispatcher.no_handlers "toString" "listener" VUndefined
  = inr TypeError /\
  Dispatcher.on Dispatcher.no_handlers "advance" "listener" VUndefined
  = inl Dispatcher.no_handlers.
Proof.
  split.
  - apply (proj1 (registration_under_an_unknown_name Dispatcher.no_handlers
                    "toString" "listener" VUndefined)). reflexivity.
  - apply (proj2 (registration_under_an_unknown_name Dispatcher.no_handlers
                    "advance" "listener" VUndefined)); [reflexivity|].
    intros key. destruct key; discriminate.
Defined.

(** ** Command router, in general *)

Lemma calls_bind {A : Type} (inv : invocation) (m : Trace.t invocation A)
    (k : A -> Trace.t invocation unit) :
  calls inv (Trace.bind m k)
  = (count_occ invocation_eq_dec (Trace.log m) inv
     + match snd m with
       | inl a => calls inv (k a)
       | inr _ => 0
       end)%nat.
Proof.
  unfold calls, Trace.bind, Trace.log. destruct m as [log1 [a|e]]; cbn.
  - destruct (k a) as [log2 r]. cbn. apply count_occ_app.
  - now rewrite Nat.add_0_r.
Qed.

(** One iteration calls nothing, or one function of its command, and this
    only when the command is triggered. *)
Lemma loop_body_shape commandName chatEvent (i : nat) (command : Command) :
  Trace.log (loop_body commandName chatEvent i command) = [] \/
  (triggered commandName command = true /\
   (Trace.log (loop_body commandName chatEvent i command) = [handler i] \/
    Trace.log (loop_body commandName chatEvent i command)
    = [insufficientPermissions i])).
Proof.
  unfold loop_body. destruct (triggered commandName command); [|now left].
  destruct (truthy (minimumRole command)); [|right; split; [reflexivity|now left]].
  destruct (member (get chatEvent "userRole") "level") as [userLevel|e];
    cbn [lift]; [rewrite bind_ret|now left].
  destruct (member (minimumRole command) "level") as [minimumLevel|e];
    cbn [lift]; [rewrite bind_ret|now left].
  destruct (less_than userLevel minimumLevel);
    [destruct (insufficientPermissionsHandler command)|].
  - right. split; [reflexivity|now right].
  - now left.
  - right. split; [reflexivity|now left].
Qed.

Lemma loop_body_calls_bound commandName chatEvent (i0 i : nat) command :
  (count_occ invocation_eq_dec
     (Trace.log (loop_body commandName chatEvent i0 command)) (handler i)
   + count_occ invocation_eq_dec
       (Trace.log (loop_body commandName chatEvent i0 command))
       (insufficientPermissions i)
   <= if (i =? i0)%nat && triggered commandName command then 1 else 0)%nat.
Proof.
  destruct (loop_body_shape commandName chatEvent i0 command)
    as [->|[Ht [->| ->]]]; cbn [count_occ]; [lia| |].
  - rewrite Ht, andb_true_r.
    destruct (invocation_eq_dec (handler i0) (handler i)) as [[= ->]|Hne].
    + rewrite Nat.eqb_refl.
      destruct (invocation_eq_dec (handler i) (insufficientPermissions i));
        [discriminate|lia].
    + destruct (invocation_eq_dec (handler i0) (insufficientPermissions i));
        [discriminate|].
      destruct (i =? i0)%nat eqn:E; [|lia].
      apply Nat.eqb_eq in E. subst. congruence.
  - rewrite Ht, andb_true_r.
    destruct (invocation_eq_dec (insufficientPermissions i0)
                (insufficientPermissions i)) as [[= ->]|Hne].
    + rewrite Nat.eqb_refl.
      destruct (invocation_eq_dec (insufficientPermissions i) (handler i));
        [discriminate|lia].
    + destruct (invocation_eq_dec (insufficientPermissions i0) (handler i));
        [discriminate|].
      destruct (i =? i0)%nat eqn:E; [|lia].
      apply Nat.eqb_eq in E. subst. congruence.
Qed.

Lemma run_commands_calls_bound commandName chatEvent (commands : list Command) :
  forall i0 i : nat,
    (calls (handler i) (run_commands commandName chatEvent i0 commands)
     + calls (insufficientPermissions i)
         (run_commands commandName chatEvent i0 commands)
     <= match nth_error commands (i - i0) with
        | Some command =>
            if (i0 <=? i)%nat && triggered commandName command then 1 else 0
        | None => 0
        end)%nat.
Proof.
  induction commands as [|command rest IH]; intros i0 i.
  - cbn. destruct (i - i0)%nat; cbn; lia.
  - cbn [run_commands]. rewrite !calls_bind.
    pose proof (loop_body_calls_bound commandName chatEvent i0 i command) as Hb.
    specialize (IH (S i0) i).
    assert (Hrest :
              (match snd (loop_body commandName chatEvent i0 command) with
               | inl _ => calls (handler i)
                            (run_commands commandName chatEvent (S i0) rest)
               | inr _ => 0
               end
               + match snd (loop_body commandName chatEvent i0 command) with
                 | inl _ => calls (insufficientPermissions i)
                              (run_commands commandName chatEvent (S i0) rest)
                 | inr _ => 0
                 end
               <= match nth_error rest (i - S i0) with
                  | Some c =>
                      if (S i0 <=? i)%nat && triggered commandName c
                      then 1 else 0
                  | None => 0
                  end)%nat).
    { destruct (snd (loop_body commandName chatEvent i0 command));
        [exact IH|lia]. }
    destruct (Nat.lt_trichotomy i i0) as [Hlt|[Heq|Hgt]].
    + replace (i =? i0)%nat with false in Hb
        by (symmetry; apply Nat.eqb_neq; lia).
      replace (S i0 <=? i)%nat with false in Hrest
        by (symmetry; apply Nat.leb_gt; lia).
      cbn [andb] in Hb, Hrest.
      assert (match nth_error rest (i - S i0) with
              | Some _ | _ => 0 end = 0)%nat by now destruct (nth_error rest _).
      lia.
    + subst i. rewrite Nat.eqb_refl in Hb.
      replace (S i0 <=? i0)%nat with false in Hrest
        by (symmetry; apply Nat.leb_gt; lia).
      cbn [andb] in Hb, Hrest.
      assert (match nth_error rest (i0 - S i0) with
              | Some _ | _ => 0 end = 0)%nat by now destruct (nth_error rest _).
      rewrite Nat.sub_diag. cbn [nth_error]. rewrite Nat.leb_refl. cbn [andb].
      lia.
    + replace (i =? i0)%nat with false in Hb
        by (symmetry; apply Nat.eqb_neq; lia).
      cbn [andb] in Hb.
      replace (i - i0)%nat with (S (i - S i0)) by lia. cbn [nth_error].
      replace (i0 <=? i)%nat with true by (symmetry; apply Nat.leb_le; lia).
      replace (S i0 <=? i)%nat with true in Hrest
        by (symmetry; apply Nat.leb_le; lia).
      lia.
Qed.

(** X24. Whatever the chat event and the roles, the router calls at most
    one function of each registered command, handler or permission hook,
    and none of a command whose triggers do not hold the command name, nor
    at an index where no command is registered. *)
Theorem each_command_is_called_at_most_once :
  forall (commands : list Command) (cfg : Config) (chatEvent : object)
         (token : string) (i : nat),
    get chatEvent "command" = VStr token ->
    (calls (handler i) (commandHandler commands cfg chatEvent)
     + calls (insufficientPermissions i) (commandHandler commands cfg chatEvent)
     <= 1)%nat /\
    (forall command,
        nth_error commands i = Some command ->
        triggered (commandName_for cfg token) command = false ->
        calls (handler i) (commandHandler commands cfg chatEvent) = 0%nat /\
        calls (insufficientPermissions i) (commandHandler commands cfg chatEvent)
        = 0%nat) /\
    (nth_error commands i = None ->
     calls (handler i) (commandHandler commands cfg chatEvent) = 0%nat /\
     calls (insufficientPermissions i) (commandHandler commands cfg chatEvent)
     = 0%nat).
Proof.
  intros commands cfg chatEvent token i Hc.
  destruct (String.eqb_spec token "") as [->|Hne].
  - unfold commandHandler. rewrite Hc. cbn. repeat split; lia.
  - rewrite (commandHandler_runs commands cfg chatEvent token Hc Hne).
    pose proof (run_commands_calls_bound (commandName_for cfg token)
                  chatEvent commands 0%nat i) as H.
    rewrite Nat.sub_0_r in H. cbn [Nat.leb andb] in H.
    split; [|split].
    + destruct (nth_error commands i) as [c|];
        [destruct (triggered _ c)|]; lia.
    + intros command Hi Ht. rewrite Hi, Ht in H. lia.
    + intros Hi. rewrite Hi in H. lia.
Qed.

Lemma each_command_is_called_at_most_once_witness :
  calls (handler 0)
        (commandHandler Sample.commands Sample.cfg
           (Sample.translated (Sample.chat "c9" Sample.vip "!next"))) = 0%nat /\
  calls (insufficientPermissions 0)
        (commandHandler Sample.commands Sample.cfg
           (Sample.translated (Sample.chat "c9" Sample.vip "!next"))) = 0%nat.
Proof.
  apply (proj1 (proj2 (each_command_is_called_at_most_once Sample.commands
                         Sample.cfg
                         (Sample.translated (Sample.chat "c9" Sample.vip "!next"))
                         "next" 0%nat eq_refl))
               Sample.skip_for_mods); reflexivity.
Defined.

Lemma translateChatType_plain (event : DubChatEvent) :
  (forall rest, chat_message event <> String "!" rest) ->
  fst (translateChatType event) = Types.ChatType.EMOTE \/
  fst (translateChatType event) = Types.ChatType.MESSAGE.
Proof.
  intros Hbang. unfold translateChatType.
  destruct (chat_message event) as [|c rest] eqn:Hm.
  - cbn. right. now destruct (strict_equal _ _).
  - assert (Hc : c <> "!"%char) by (intros ->; now apply (Hbang rest)).
    destruct c as [[] [] [] [] [] [] [] []];
      try (exfalso; apply Hc; reflexivity);
      (destruct (_ && _); [now left|right; now destruct (strict_equal _ _)]).
Qed.

(** X25. A chat message that does not start with "!" reaches no command:
    its translated event has no command, and the router calls nothing and
    returns normally, whatever the registered commands. *)
Theorem plain_chat_reaches_no_command :
  forall (commands : list Command) (cfg : Config) (event event' : DubChatEvent)
         (o : object),
    (forall rest, chat_message event <> String "!" rest) ->
    translateChatEvent event = inl (o, event') ->
    get o "command" = VUndefined /\
    TrackerRest.route_chat commands cfg event = ([], inl tt).
Proof.
  intros commands cfg event event' o Hbang Ho.
  assert (Hcmd : get o "command" = VUndefined).
  { revert Ho. unfold translateChatEvent.
    destruct (translateChatType_plain event Hbang) as [Ht|Ht];
      destruct (translateChatType event) as [type ev1]; cbn in Ht; subst type;
      (destruct (chat_user ev1) as [u|];
       [|destruct (chat_raw_user ev1) as [r|]]); try discriminate;
      cbn; intros [= <- _]; reflexivity. }
  split; [exact Hcmd|].
  unfold TrackerRest.route_chat, commandHandler. rewrite Ho.
  assert (Hget : get (set o "eventName" (VStr Types.Event.CHAT)) "command"
                 = VUndefined).
  { revert Ho. unfold translateChatEvent.
    destruct (translateChatType_plain event Hbang) as [Ht|Ht];
      destruct (translateChatType event) as [type ev1]; cbn in Ht; subst type;
      (destruct (chat_user ev1) as [u|];
       [|destruct (chat_raw_user ev1) as [r|]]); try discriminate;
      cbn; intros [= <- _]; reflexivity. }
  now rewrite Hget.
Qed.

Lemma plain_chat_reaches_no_command_witness :
  TrackerRest.route_chat Sample.commands Sample.cfg
    (Sample.chat "c1" Sample.mod_user "skip this one") = ([], inl tt).
Proof.
  refine (proj2 (plain_chat_reaches_no_command Sample.commands Sample.cfg
                   (Sample.chat "c1" Sample.mod_user "skip this one") _ _
                   _ eq_refl)).
  intros rest H. discriminate H.
Defined.

Lemma bind_throw {E A B : Type} (e : error) (k : A -> Trace.t E B) :
  Trace.bind (Trace.throw e) k = ([], inr e).
Proof. reflexivity. Qed.

(** The loop up to the first command that is triggered and gated, for a
    sender without role. *)
Lemma run_until_gate commandName chatEvent (command : Command)
    (pre post : list Command) :
  member (get chatEvent "userRole") "level" = inr TypeError ->
  triggered commandName command = true ->
  truthy (minimumRole command) = true ->
  (forall c, In c pre -> triggered commandName c = true ->
             truthy (minimumRole c) = false) ->
  forall i0 : nat,
    snd (run_commands commandName chatEvent i0 (pre ++ command :: post))
    = inr TypeError /\
    forall inv,
      In inv (Trace.log (run_commands commandName chatEvent i0
                           (pre ++ command :: post))) ->
      (index_of inv < i0 + List.length pre)%nat.
Proof.
  intros Hrole Ht Hg. induction pre as [|c pre IH]; intros Hpre i0.
  - cbn [app run_commands]. unfold loop_body. rewrite Ht, Hg, Hrole.
    cbn [lift]. rewrite !bind_throw. cbn. split; [reflexivity|intros inv []].
  - destruct (IH (fun x Hx => Hpre x (or_intror Hx)) (S i0)) as [Herr Hlog].
    cbn [app run_commands].
    assert (Hbody : loop_body commandName chatEvent i0 c
                    = (if triggered commandName c then [handler i0] else [],
                       inl tt)).
    { unfold loop_body. destruct (triggered commandName c) eqn:Htc; [|reflexivity].
      now rewrite (Hpre c (or_introl eq_refl) Htc). }
    rewrite Hbody. unfold Trace.bind, Trace.log in *.
    destruct (run_commands commandName chatEvent (S i0) (pre ++ command :: post))
      as [log2 r2]. cbn in Herr, Hlog |- *. split; [exact Herr|].
    intros inv Hin. apply in_app_or in Hin. destruct Hin as [Hin|Hin].
    + destruct (triggered commandName c); [|destruct Hin].
      destruct Hin as [<-|[]]. cbn. lia.
    + specialize (Hlog inv Hin). lia.
Qed.

(** X26. A sender without role stops the router at the first gated
    command.  When the role of the sender is [undefined] or [null] (as it
    is for a manager, whose role has no translation) and the command name
    triggers a command that declares a minimum role, while the triggered
    commands registered before it declare none, the router throws a
    TypeError at that command: neither its functions nor those of any
    command registered after it are called. *)
Theorem sender_without_role_stops_the_router :
  forall (pre post : list Command) (command : Command) (cfg : Config)
         (chatEvent : object) (token : string),
    get chatEvent "command" = VStr token ->
    token <> ""%string ->
    get chatEvent "userRole" = VUndefined \/ get chatEvent "userRole" = VNull ->
    triggered (commandName_for cfg token) command = true ->
    truthy (minimumRole command) = true ->
    (forall c, In c pre ->
               triggered (commandName_for cfg token) c = true ->
               truthy (minimumRole c) = false) ->
    Trace.raised (commandHandler (pre ++ command :: post) cfg chatEvent)
    = Some TypeError /\
    forall j : nat,
      (List.length pre <= j)%nat ->
      calls (handler j) (commandHandler (pre ++ command :: post) cfg chatEvent)
      = 0%nat /\
      calls (insufficientPermissions j)
            (commandHandler (pre ++ command :: post) cfg chatEvent) = 0%nat.
Proof.
  intros pre post command cfg chatEvent token Hc Hne Hrole Ht Hg Hpre.
  rewrite (commandHandler_runs _ cfg chatEvent token Hc Hne).
  assert (Hm : member (get chatEvent "userRole") "level" = inr TypeError)
    by (destruct Hrole as [-> | ->]; reflexivity).
  destruct (run_until_gate (commandName_for cfg token) chatEvent command
              pre post Hm Ht Hg Hpre 0%nat) as [Herr Hlog].
  split.
  - unfold Trace.raised. now rewrite Herr.
  - intros j Hj. unfold calls.
    split; apply count_occ_not_In; intros Hin;
      specialize (Hlog _ Hin); cbn in Hlog; lia.
Qed.

Lemma sender_without_role_stops_the_router_witness :
  Trace.raised (commandHandler ([] ++ Sample.skip_for_mods :: [Sample.skip_for_all])
                  Sample.cfg
                  (Sample.translated (Sample.chat "c9" Vendor.manager "!skip")))
  = Some TypeError /\
  forall j : nat,
    (List.length (@nil Command) <= j)%nat ->
    calls (handler j)
          (commandHandler ([] ++ Sample.skip_for_mods :: [Sample.skip_for_all])
             Sample.cfg
             (Sample.translated (Sample.chat "c9" Vendor.manager "!skip")))
    = 0%nat /\
    calls (insufficientPermissions j)
          (commandHandler ([] ++ Sample.skip_for_mods :: [Sample.skip_for_all])
             Sample.cfg
             (Sample.translated (Sample.chat "c9" Vendor.manager "!skip")))
    = 0%nat.
Proof.
  apply (sender_without_role_stops_the_router [] [Sample.skip_for_all]
           Sample.skip_for_mods Sample.cfg
           (Sample.translated (Sample.chat "c9" Vendor.manager "!skip"))
           "skip"); try reflexivity; [discriminate|now left|intros c []].
Defined.

Lemma run_commands_role_only commandName (e1 e2 : object) commands :
  get e1 "userRole" = get e2 "userRole" ->
  forall i0, run_commands commandName e1 i0 commands
             = run_commands commandName e2 i0 commands.
Proof.
  intros Hrole. induction commands as [|c commands IH]; intros i0; cbn.
  - reflexivity.
  - unfold loop_body. now rewrite Hrole, IH.
Qed.

Lemma toLowerCase_empty (s : string) :
  toLowerCase s = ""%string <-> s = ""%string.
Proof. destruct s; cbn; split; (reflexivity || discriminate). Qed.

(** X27. When commands are not case-sensitive, the letter case of the
    command token is of no consequence: two chat events of senders with the
    same role, whose command tokens are equal up to letter case, make the
    router do exactly the same calls and end in the same way. *)
Theorem letter_case_of_the_token_is_ignored :
  forall (commands : list Command) (cfg : Config) (e1 e2 : object)
         (t1 t2 : string),
    areCommandsCaseSensitive cfg = false ->
    get e1 "command" = VStr t1 ->
    get e2 "command" = VStr t2 ->
    toLowerCase t1 = toLowerCase t2 ->
    get e1 "userRole" = get e2 "userRole" ->
    commandHandler commands cfg e1 = commandHandler commands cfg e2.
Proof.
  intros commands cfg e1 e2 t1 t2 Hcfg H1 H2 Hlow Hrole.
  destruct (String.eqb_spec t1 "") as [->|Hne1].
  - assert (t2 = ""%string) as -> by (apply toLowerCase_empty; now rewrite <- Hlow).
    unfold commandHandler. now rewrite H1, H2.
  - assert (Hne2 : t2 <> ""%string).
    { intros ->. apply Hne1. apply toLowerCase_empty. now rewrite Hlow. }
    rewrite (commandHandler_runs commands cfg e1 t1 H1 Hne1).
    rewrite (commandHandler_runs commands cfg e2 t2 H2 Hne2).
    unfold commandName_for. rewrite Hcfg, Hlow.
    now apply run_commands_role_only.
Qed.

Lemma letter_case_of_the_token_is_ignored_witness :
  commandHandler Sample.commands Sample.cfg
    (Sample.translated (Sample.chat "c9" Sample.vip "!SKIP"))
  = commandHandler Sample.commands Sample.cfg
      (Sample.translated (Sample.chat "c9" Sample.vip "!sKip")).
Proof.
  apply (letter_case_of_the_token_is_ignored Sample.commands Sample.cfg
           (Sample.translated (Sample.chat "c9" Sample.vip "!SKIP"))
           (Sample.translated (Sample.chat "c9" Sample.vip "!sKip"))
           "SKIP" "sKip"); reflexivity.
Defined.

(** ** Outbound actions, in general *)

(** X28. Force skip, grab, join and leave the wait list, meh and woot:
    whatever the vendor client answers, the action makes its one request,
    never throws, and calls the completion callback, when there is one,
    exactly once, with [true] when the request was queued and with [false]
    when it was not; without a callback it makes the same request and calls
    nothing. *)
Theorem guarded_actions_call_back_once :
  forall (queues : Bot.request -> bool) (cb : Bot.callback),
    let outcome_of (r : Bot.request) : Trace.t Bot.effect unit :=
      (Bot.Requested r ::
       match cb with
       | Some f => [Bot.Called f (queues r)]
       | None => []
       end, inl tt) in
    Bot.forceSkip queues cb = outcome_of Bot.moderateForceSkip /\
    Bot.grabSong queues cb = outcome_of Bot.grab /\
    Bot.joinWaitList queues cb = outcome_of Bot.joinBooth /\
    Bot.leaveWaitList queues cb = outcome_of Bot.leaveBooth /\
    Bot.mehSong queues cb = outcome_of Bot.meh /\
    Bot.wootSong queues cb = outcome_of Bot.woot.
Proof.
  intros queues cb outcome_of. subst outcome_of.
  unfold Bot.forceSkip, Bot.grabSong, Bot.joinWaitList, Bot.leaveWaitList,
    Bot.mehSong, Bot.wootSong.
  destruct cb as [f|];
    rewrite ?simple_action_with_callback, ?simple_action_without_callback;
    repeat split.
Qed.

(** X29. Moving a DJ in the wait list throws exactly when the callback is
    omitted and the vendor client queues the request; in every other case
    it behaves like the guarded actions.  The request is made in all
    cases. *)
Theorem move_dj_throws_iff_queued_without_callback :
  forall (queues : Bot.request -> bool) (userID newPosition : value)
         (cb : Bot.callback),
    let r := Bot.moderateMoveDJ userID newPosition in
    Trace.log (Bot.moveDjInWaitList queues userID newPosition cb)
    = Bot.Requested r ::
      match cb with
      | Some f => [Bot.Called f (queues r)]
      | None => []
      end /\
    (Trace.raised (Bot.moveDjInWaitList queues userID newPosition cb)
     = Some TypeError <-> cb = None /\ queues r = true) /\
    (Trace.raised (Bot.moveDjInWaitList queues userID newPosition cb) = None <->
     cb <> None \/ queues r = false).
Proof.
  intros queues userID newPosition cb r. subst r.
  destruct cb as [f|].
  - rewrite moveDjInWaitList_with_callback. cbn.
    split; [reflexivity|]. split; split; try discriminate;
      try (intros [H _]; discriminate H); auto.
    intros _. left. discriminate.
  - rewrite moveDjInWaitList_without_callback. unfold Trace.raised. cbn.
    destruct (queues (Bot.moderateMoveDJ userID newPosition)); cbn.
    + split; [reflexivity|]. split; split; auto; try discriminate.
      intros [H|H]; [now contradiction H|discriminate H].
    + split; [reflexivity|]. split; split; auto; try discriminate.
      intros [_ H]. discriminate H.
Qed.

(** ** Parsing of commands *)

Lemma string_app_assoc (a b c : string) :
  ((a ++ b) ++ c = a ++ (b ++ c))%string.
Proof. induction a as [|x a IH]; cbn; [reflexivity|now rewrite IH]. Qed.

Lemma string_app_empty (a b : string) :
  (a ++ b)%string = EmptyString -> a = EmptyString.
Proof. destruct a; [reflexivity|discriminate]. Qed.

Lemma trim_right_only_space (t : string) :
  only_space t = true -> trim_right t = EmptyString.
Proof.
  induction t as [|c t IH]; cbn; [reflexivity|].
  intros H. apply andb_prop in H. destruct H as [Hc Ht].
  now rewrite (IH Ht), Hc.
Qed.

Lemma trim_right_word (a rest : string) :
  no_space a = true -> trim_right (a ++ rest) = (a ++ trim_right rest)%string.
Proof.
  induction a as [|c a IH]; cbn; [reflexivity|].
  intros H. apply andb_prop in H. destruct H as [Hc Ha].
  apply negb_true_iff in Hc. now rewrite Hc, (IH Ha).
Qed.

Lemma trim_right_separator (sep rest : string) :
  trim_right rest <> EmptyString ->
  trim_right (sep ++ rest) = (sep ++ trim_right rest)%string.
Proof.
  intros Hrest. induction sep as [|c sep IH]; cbn; [reflexivity|].
  rewrite IH.
  destruct (sep ++ trim_right rest)%string eqn:E.
  - pose proof (string_app_empty _ _ E) as Hs. subst sep. cbn in E.
    contradiction.
  - cbn. now rewrite andb_false_r.
Qed.

Lemma trim_right_spaced (args : list (string * string)) (trailing : string) :
  Forall well_spaced args -> only_space trailing = true ->
  trim_right (spaced args ++ trailing) = spaced args.
Proof.
  intros Hargs Ht. induction Hargs as [|[sep a] args (_ & _ & Ha & Hne) _ IH].
  - cbn. now apply trim_right_only_space.
  - cbn [spaced fst snd] in *. rewrite !string_app_assoc.
    assert (Hword : trim_right (a ++ spaced args ++ trailing)
                    = (a ++ spaced args)%string)
      by now rewrite (trim_right_word _ _ Ha), IH.
    rewrite trim_right_separator; rewrite Hword; [reflexivity|].
    intros E. apply string_app_empty in E. contradiction.
Qed.

Lemma split_word (a : string) :
  no_space a = true ->
  forall cur rest,
    split_ws cur false (a ++ rest) = split_ws (cur ++ a) false rest.
Proof.
  induction a as [|c a IH]; intros H cur rest.
  - cbn. f_equal. induction cur as [|x cur IHc]; cbn; [reflexivity|].
    now rewrite <- IHc.
  - cbn in H. apply andb_prop in H. destruct H as [Hc Ha].
    apply negb_true_iff in Hc. cbn [append split_ws]. rewrite Hc.
    rewrite (IH Ha). now rewrite string_app_assoc.
Qed.

Lemma split_gap (sep : string) :
  only_space sep = true ->
  forall cur rest, split_ws cur true (sep ++ rest) = split_ws cur true rest.
Proof.
  induction sep as [|c sep IH]; intros H cur rest; [reflexivity|].
  cbn in H. apply andb_prop in H. destruct H as [Hc Hs].
  cbn [append split_ws]. rewrite Hc. now apply IH.
Qed.

Lemma split_spaced (args : list (string * string)) :
  Forall well_spaced args ->
  forall cur, split_ws cur false (spaced args) = cur :: map snd args.
Proof.
  induction 1 as [|[sep a] args (Hs & Hsne & Ha & Hane) _ IH]; intros cur.
  - reflexivity.
  - cbn [spaced fst snd map] in *.
    destruct sep as [|c sep]; [contradiction|].
    cbn in Hs. apply andb_prop in Hs. destruct Hs as [Hc Hs].
    cbn [append split_ws]. rewrite Hc. f_equal.
    rewrite (split_gap sep Hs).
    destruct a as [|d a]; [contradiction|].
    cbn in Ha. apply andb_prop in Ha. destruct Ha as [Hd Ha].
    apply negb_true_iff in Hd. cbn [append split_ws]. rewrite Hd.
    rewrite (split_word a Ha). cbn [append]. apply IH.
Qed.

(** X30. Parsing of a command.  For a message made of "!", a name without
    whitespace, any number of arguments each behind a non-empty run of
    whitespace, and trailing whitespace, sent by a user the event names:
    the translated event is typed COMMAND, its command is the name, its
    arguments are the arguments in order, and its message is the message as
    received. *)
Theorem command_parsing :
  forall (event : DubChatEvent) (name trailing : string)
         (args : list (string * string)),
    no_space name = true ->
    Forall well_spaced args ->
    only_space trailing = true ->
    chat_message event = ("!" ++ name ++ spaced args ++ trailing)%string ->
    chat_user event <> None \/ chat_raw_user event <> None ->
    exists o,
      translateChatEvent event = inl (o, event) /\
      get o "type" = Types.ChatType.COMMAND /\
      get o "command" = VStr name /\
      get o "args" = VArr (map VStr (map snd args)) /\
      get o "message" = VStr (chat_message event).
Proof.
  intros event name trailing args Hname Hargs Htrail Hmsg Hsender.
  assert (Hwords : split_whitespace (trim (chat_message event))
                   = ("!" ++ name)%string :: map snd args).
  { rewrite Hmsg. unfold trim, split_whitespace.
    change ("!" ++ name ++ spaced args ++ trailing)%string
      with (String "!" (name ++ spaced args ++ trailing)).
    cbn [trim_left]. change (is_space "!") with false. cbn iota.
    change (String "!" (name ++ spaced args ++ trailing))
      with ("!" ++ (name ++ spaced args ++ trailing))%string.
    rewrite (trim_right_word "!" _ eq_refl).
    rewrite (trim_right_word name _ Hname).
    rewrite (trim_right_spaced args trailing Hargs Htrail).
    rewrite (split_word "!" eq_refl). cbn [append].
    rewrite (split_word name Hname).
    apply (split_spaced args Hargs). }
  unfold translateChatEvent.
  rewrite (bang_is_command event (name ++ spaced args ++ trailing) Hmsg).
  rewrite Hwords. cbn [hd tl].
  assert (Hcmd : remove_first_char "!" ("!" ++ name) = name) by reflexivity.
  rewrite Hcmd.
  destruct (chat_user event) as [u|]; [|destruct (chat_raw_user event) as [r|]].
  - eexists. split; [reflexivity|]. repeat split.
  - eexists. split; [reflexivity|]. repeat split.
  - exfalso. destruct Hsender as [H|H]; now apply H.
Qed.

Lemma command_parsing_witness :
  exists o,
    translateChatEvent (Sample.chat "c1" Sample.userA "!ban  troll 60 ")
    = inl (o, Sample.chat "c1" Sample.userA "!ban  troll 60 ") /\
    get o "type" = Types.ChatType.COMMAND /\
    get o "command" = VStr "ban" /\
    get o "args" = VArr (map VStr (map snd [("  ", "troll"); (" ", "60")])) /\
    get o "message"
    = VStr (chat_message (Sample.chat "c1" Sample.userA "!ban  troll 60 ")).
Proof.
  apply (command_parsing (Sample.chat "c1" Sample.userA "!ban  troll 60 ")
           "ban" " " [("  ", "troll"); (" ", "60")]); try reflexivity.
  - repeat constructor; cbn; discriminate.
  - left. discriminate.
Defined.
